(** * Dead-export removal: the orchestration in [removeUnusedExport.ts]

    A shallow embedding of [src/lib/util/removeUnusedExport.ts]:
    [processFile] (the per-module analyzer), [removeWholeExportSpecifier]
    and [removeUnusedExport] (seeding, the task callback, the deferred
    clean-up of whole re-exports), followed by the properties of the
    specification that are stated about them.

    JavaScript values are modelled as follows: a [string] is a Rocq
    [string]; a text position is a [nat]; a [Set<string>] that is only
    queried is a [gset string], one that is iterated is a duplicate-free
    [list string] in insertion order; a [Map<string, V>] that is only
    queried is a [gmap string V]; an exception is the left injection of a
    sum. *)

From Stdlib Require Import ZArith.
From stdpp Require Import base strings list gmap fin_maps sets sorting.

Open Scope string_scope.
Set Warnings "-clear-no-such-hyp".

(** ** Strings *)

(** [s.includes(sub)] *)
Fixpoint includes (s sub : string) : bool :=
  if String.prefix sub s then true
  else match s with
       | EmptyString => false
       | String _ s' => includes s' sub
       end.

(** [s.slice(0, n)] and [s.slice(n)] for [0 <= n]. *)
Fixpoint str_take (n : nat) (s : string) : string :=
  match n, s with
  | S n', String a s' => String a (str_take n' s')
  | _, _ => EmptyString
  end.

Fixpoint str_drop (n : nat) (s : string) : string :=
  match n, s with
  | S n', String _ s' => str_drop n' s'
  | _, _ => s
  end.

(** [s.slice(start, start + width)] *)
Definition str_slice (start width : nat) (s : string) : string :=
  str_take width (str_drop start s).

(** [parts.join(sep)] *)
Fixpoint join (sep : string) (parts : list string) : string :=
  match parts with
  | [] => EmptyString
  | [p] => p
  | p :: ps => p +:+ sep +:+ join sep ps
  end.

(** [parts.join('')] *)
Definition str_concat (parts : list string) : string :=
  foldr String.append EmptyString parts.

(** [xs.includes(x)] on an array of strings. *)
Definition arr_includes (xs : list string) (x : string) : bool :=
  bool_decide (x ∈ xs).

(** ** Text changes ([ts.TextSpan], [ts.TextChange]) *)

Record TextSpan := { span_start : nat; span_length : nat }.
Record TextChange := { newText : string; span : TextSpan }.

(** [textSpanEnd] of the compiler API. *)
Definition span_end (s : TextSpan) : nat := span_start s + span_length s.

(** The span [c] covers the span [s] when it contains every position of
    [s]; it overlaps [s] when the two share a position. *)
Definition covers (c s : TextSpan) : Prop :=
  (span_start c ≤ span_start s)%nat ∧ (span_end s ≤ span_end c)%nat.

Definition overlaps (c s : TextSpan) : Prop :=
  (span_start c < span_end s)%nat ∧ (span_start s < span_end c)%nat.

#[global] Instance covers_dec c s : Decision (covers c s) :=
  and_dec (decide (span_start c ≤ span_start s)%nat)
          (decide (span_end s ≤ span_end c)%nat).

#[global] Instance overlaps_dec c s : Decision (overlaps c s) :=
  and_dec (decide (span_start c < span_end s)%nat)
          (decide (span_start s < span_end c)%nat).

(** ** The Module Store ([FileService]) *)

Record File := { content : string; version : nat }.

(** Modelled from the spec: the [FileService] class is not under [src/];
    §3 and §6.1 give a store of module path to text with [get], [set],
    [delete], [exists], [listPaths] and [snapshot], and a version counter
    bumped on every mutation.  The store is kept as an association list so
    that [getFileNames] has an enumeration order (insertion order, as for a
    JavaScript [Map]); [get] of an absent path is the empty text. *)
Abbreviation Store := (list (string * File)).

Module FS.

Fixpoint find (fs : Store) (name : string) : option File :=
  match fs with
  | [] => None
  | (n, f) :: fs' => if bool_decide (n = name) then Some f else find fs' name
  end.

Definition exists_ (fs : Store) (name : string) : bool :=
  match find fs name with Some _ => true | None => false end.

Definition get (fs : Store) (name : string) : string :=
  match find fs name with Some f => content f | None => EmptyString end.

Definition getVersion (fs : Store) (name : string) : nat :=
  match find fs name with Some f => version f | None => 0 end.

Definition getFileNames (fs : Store) : list string := fs.*1.

Fixpoint set (fs : Store) (name text : string) : Store :=
  match fs with
  | [] => [(name, {| content := text; version := 1 |})]
  | (n, f) :: fs' =>
      if bool_decide (n = name)
      then (n, {| content := text; version := S (version f) |}) :: fs'
      else (n, f) :: set fs' name text
  end.

Definition delete (fs : Store) (name : string) : Store :=
  filter (λ e, e.1 ≠ name) fs.

(** [fileService.eject()]: the immutable [Map<string, string>] handed to
    the analyzer. *)
Definition eject (fs : Store) : gmap string string :=
  foldr (λ e m, <[e.1 := content e.2]> m) ∅ fs.

End FS.

(** ** The dependency graph ([Vertexes], [DependencyGraph]) *)

(** [depth] is a JavaScript number that may be [Infinity]. *)
Inductive Depth := Finite (d : Z) | Infinity.

Record VertexData := {
  depth : Depth;
  wholeReexportSpecifier : gmap string string
}.

(** [to]: the modules this module imports (it is what [processFile] hands
    to [parseFile] as [destFiles]); [from]: the modules that import it. *)
Record Vertex := {
  to : list string;
  from : list string;
  data : VertexData
}.

Abbreviation Vertexes := (gmap string Vertex).

Definition prune (path : string) (v : Vertex) : Vertex :=
  {| to := filter (λ f, f ≠ path) (to v);
     from := filter (λ f, f ≠ path) (from v);
     data := data v |}.

(** Modelled from the spec: the [DependencyGraph] class is not under
    [src/]; §4.1 says [deleteVertex(path)] removes the vertex and prunes
    [path] from every remaining vertex's [to]/[from] sets. *)
Definition deleteVertex (path : string) (g : Vertexes) : Vertexes :=
  prune path <$> delete path g.

(** ** Export items (the result of [parseFile]) *)

(** [item.change]: the text of the declaration, where to cut it, and
    whether it is an unnamed default export. *)
Record Change := {
  code : string;
  change_span : TextSpan;
  isUnnamedDefaultExport : bool
}.

(** The discriminated union switched over by [processFile]: [item.kind]
    is a [ts.SyntaxKind] and, for an export declaration, [item.type] is one
    of ['named'], ['namespace'], ['whole'].  The namespace and whole
    re-exports carry no [skip] field (hence the ['skip' in v] test of the
    source).  The last two constructors stand for values outside the union,
    which the type checker excludes ([item satisfies never]) but which a
    JavaScript caller can still pass: an export declaration with another
    [type], and an item of another [kind]. *)
Inductive ExportItem :=
| VariableStatement (name : list string) (change : Change) (skip : bool) (start : nat)
| FunctionDeclaration (name : string) (change : Change) (skip : bool) (start : nat)
| InterfaceDeclaration (name : string) (change : Change) (skip : bool) (start : nat)
| TypeAliasDeclaration (name : string) (change : Change) (skip : bool) (start : nat)
| ExportAssignment (change : Change) (skip : bool) (start : nat)
| ExportDeclarationNamed (name : list string) (change : Change) (skip : bool) (start : nat)
| ExportDeclarationNamespace (name : string) (change : Change) (start : nat)
| ExportDeclarationWhole (specifier : string) (change : Change) (start : nat)
| ClassDeclaration (name : string) (change : Change) (skip : bool) (start : nat)
| ExportDeclarationOther (type : string) (skip : option bool) (start : nat)
| OtherKind (kind : N) (skip : option bool) (start : nat).

(** ['skip' in v && v.skip] *)
Definition skipped (v : ExportItem) : bool :=
  match v with
  | VariableStatement _ _ s _ | FunctionDeclaration _ _ s _
  | InterfaceDeclaration _ _ s _ | TypeAliasDeclaration _ _ s _
  | ExportAssignment _ s _ | ExportDeclarationNamed _ _ s _
  | ClassDeclaration _ _ s _ => s
  | ExportDeclarationNamespace _ _ _ | ExportDeclarationWhole _ _ _ => false
  | ExportDeclarationOther _ s _ | OtherKind _ s _ => default false s
  end.

(** Whether the item is one of the variants of the union. *)
Definition recognized (v : ExportItem) : bool :=
  match v with
  | ExportDeclarationOther _ _ _ | OtherKind _ _ _ => false
  | _ => true
  end.

(** [item.start] *)
Definition item_start (v : ExportItem) : nat :=
  match v with
  | VariableStatement _ _ _ p | FunctionDeclaration _ _ _ p
  | InterfaceDeclaration _ _ _ p | TypeAliasDeclaration _ _ _ p
  | ExportAssignment _ _ p | ExportDeclarationNamed _ _ _ p
  | ClassDeclaration _ _ _ p | ExportDeclarationNamespace _ _ p
  | ExportDeclarationWhole _ _ p | ExportDeclarationOther _ _ p
  | OtherKind _ _ p => p
  end.

(** [item.change.span], for the variants that have a [change]. *)
Definition item_span (v : ExportItem) : option TextSpan :=
  match v with
  | VariableStatement _ c _ _ | FunctionDeclaration _ c _ _
  | InterfaceDeclaration _ c _ _ | TypeAliasDeclaration _ c _ _
  | ExportAssignment c _ _ | ExportDeclarationNamed _ c _ _
  | ClassDeclaration _ c _ _ | ExportDeclarationNamespace _ c _
  | ExportDeclarationWhole _ c _ => Some (change_span c)
  | ExportDeclarationOther _ _ _ | OtherKind _ _ _ => None
  end.

(** The [code]s under which the decision switch logs the removal of an
    item: the joined names of a variable statement, the unused names of a
    named export declaration (all of them appear here), ['default'] for an
    export assignment, the name otherwise. *)
Definition item_codes (v : ExportItem) : list string :=
  match v with
  | VariableStatement name _ _ _ => [join ", " name]
  | ExportDeclarationNamed name _ _ _ => name
  | FunctionDeclaration name _ _ _ | InterfaceDeclaration name _ _ _
  | TypeAliasDeclaration name _ _ _ | ClassDeclaration name _ _ _ => [name]
  | ExportAssignment _ _ _ => ["default"]
  | ExportDeclarationNamespace _ _ _ | ExportDeclarationWhole _ _ _
  | ExportDeclarationOther _ _ _ | OtherKind _ _ _ => []
  end.

(** The symbols under which the decision switch looks an item up in the
    usage set: the names of a variable statement or of a named export
    declaration, ['default'] for an export assignment, the name of a
    function, interface, type alias or class; the namespace and whole
    re-exports are not looked up. *)
Definition item_symbols (v : ExportItem) : list string :=
  match v with
  | VariableStatement name _ _ _ | ExportDeclarationNamed name _ _ _ => name
  | FunctionDeclaration name _ _ _ | InterfaceDeclaration name _ _ _
  | TypeAliasDeclaration name _ _ _ | ClassDeclaration name _ _ _ => [name]
  | ExportAssignment _ _ _ => ["default"]
  | ExportDeclarationNamespace _ _ _ | ExportDeclarationWhole _ _ _
  | ExportDeclarationOther _ _ _ | OtherKind _ _ _ => []
  end.

(** ** Analysis results *)

(** An entry of [removedExports] (called [logs] in [processFile]). *)
Record Log := { fileName : string; position : nat; log_code : string }.

Inductive Result :=
| OpDelete
| OpEdit (content : string) (removedExports : list Log).

(** What a call can raise: the [Error] thrown by the decision switch, any
    other exception of a collaborator, and, for the model only, the
    exhaustion of the fuel given to the [while (true)] loop of
    [processFile]. *)
Inductive Exn :=
| Unexpected (item : ExportItem)
| Raised (message : string)
| OutOfFuel.

Definition Outcome (A : Type) : Type := Exn + A.

Definition ret {A} (a : A) : Outcome A := inr a.
Definition throw {A} (e : Exn) : Outcome A := inl e.
Definition bind {A B} (m : Outcome A) (k : A → Outcome B) : Outcome B :=
  match m with
  | inl e => inl e
  | inr a => k a
  end.

Notation "'let*' x ':=' m 'in' k" := (bind m (λ x, k))
  (at level 10, x pattern, m at level 100, k at level 200, only parsing).

(** [xs.forEach(f)] where [f] updates an accumulator and may throw. *)
Fixpoint forEach {A S} (f : S → A → Outcome S) (xs : list A) (s : S) : Outcome S :=
  match xs with
  | [] => ret s
  | x :: xs' => let* s' := f s x in forEach f xs' s'
  end.

Inductive FixId := fixIdDelete | fixIdDeleteImports.

(** The arguments of [processFile] (and of [pool.run]); the compiler
    options and the project root are only passed through to the
    collaborators and are part of them here. *)
Record ProcessArgs := {
  targetFile : string;
  vertexes : Vertexes;
  files : gmap string string;
  deleteUnusedFile : bool;
  enableCodeFix : bool
}.

(** ** [processFile] *)

Section ProcessFile.

(** The collaborators of [processFile].  [findFileUsage], [parseFile],
    [applyTextChanges] and [applyCodeFix] are modules of the repository
    that are not under [src/]; [stripExportKeyword] and
    [updateExportDeclaration] are defined in the source through the
    TypeScript compiler (parser, transformer and printer).  All are taken
    as functions of what the source passes them; [applyCodeFix] reads the
    text it fixes from the language service, that is the text last set
    for [fileName]. *)
Variable findFileUsage : string → Vertexes → gmap string string → gset string.
Variable parseFile : string → string → list string → list ExportItem.
Variable applyTextChanges : string → list TextChange → string.
Variable stripExportKeyword : string → string.
Variable updateExportDeclaration : string → list string → string.
Variable applyCodeFix : FixId → string → string → string.

(** The two arrays filled by the decision switch. *)
Record Collected := { changes : list TextChange; logs : list Log }.

Definition push (c : TextChange) (ls : list Log) (acc : Collected) : Collected :=
  {| changes := changes acc ++ [c]; logs := logs acc ++ ls |}.

Definition has (usage : gset string) (it : string) : bool :=
  bool_decide (it ∈ usage).

Definition cut (c : Change) : TextChange :=
  {| newText := EmptyString; span := change_span c |}.

Definition log (file : string) (pos : nat) (sym : string) : Log :=
  {| fileName := file; position := pos; log_code := sym |}.

(** The body of [exports.forEach((item) => { switch (item.kind) ... })]. *)
Definition switchItem (file : string) (usage : gset string)
    (acc : Collected) (item : ExportItem) : Outcome Collected :=
  match item with
  | VariableStatement name change skip start =>
      if skip || forallb (has usage) name then ret acc
      else ret (push (cut change) [log file start (join ", " name)] acc)
  | FunctionDeclaration name change skip start =>
      if skip || has usage name then ret acc
      else ret (push {| newText := if isUnnamedDefaultExport change
                                   then EmptyString
                                   else stripExportKeyword (code change);
                        span := change_span change |}
                     [log file start name] acc)
  | InterfaceDeclaration name change skip start =>
      if skip || has usage name then ret acc
      else ret (push (cut change) [log file start name] acc)
  | TypeAliasDeclaration name change skip start =>
      if skip || has usage name then ret acc
      else ret (push (cut change) [log file start name] acc)
  | ExportAssignment change skip start =>
      if skip || has usage "default" then ret acc
      else ret (push (cut change) [log file start "default"] acc)
  | ExportDeclarationNamed name change skip start =>
      if skip || forallb (has usage) name then ret acc
      else
        let unused := filter (λ it, has usage it = false) name in
        let count := (length name - length unused)%nat in
        ret (push {| newText := if bool_decide (0 < count)%nat
                                then updateExportDeclaration (code change) unused
                                else EmptyString;
                     span := change_span change |}
                  (log file start <$> unused) acc)
  | ExportDeclarationNamespace _ _ _ => ret acc
  | ExportDeclarationWhole _ _ _ => ret acc
  | ClassDeclaration name change skip start =>
      if skip || has usage name then ret acc
      else ret (push (cut change) [log file start name] acc)
  | ExportDeclarationOther _ _ _ => throw (Unexpected item)
  | OtherKind _ _ _ => throw (Unexpected item)
  end.

(** [while (true) { ... applyCodeFix({ fixId: fixIdDelete ... }) ... }]:
    iterate the fix until the text no longer changes.  The loop need not
    terminate; [fuel] bounds the number of iterations of the model. *)
Fixpoint fixLoop (fuel : nat) (file text : string) : Outcome string :=
  match fuel with
  | O => throw OutOfFuel
  | S fuel' =>
      let result := applyCodeFix fixIdDelete file text in
      if bool_decide (result = text) then ret text
      else fixLoop fuel' file result
  end.

(** [files.get(targetFile) || ''] *)
Definition currentText (a : ProcessArgs) : string :=
  default EmptyString (files a !! targetFile a).

(** [findFileUsage({ targetFile, vertexes, files, options })] *)
Definition usageOf (a : ProcessArgs) : gset string :=
  findFileUsage (targetFile a) (vertexes a) (files a).

(** [parseFile({ file, content, options, destFiles }).exports], where
    [destFiles] is [vertexes.get(targetFile)?.to || new Set([])]. *)
Definition exportsOf (a : ProcessArgs) : list ExportItem :=
  parseFile (targetFile a) (currentText a)
    (match vertexes a !! targetFile a with Some v => to v | None => [] end).

(** [usage.size === 0 && deleteUnusedFile &&
     !exports.some((v) => 'skip' in v && v.skip)] *)
Definition deletesModule (a : ProcessArgs) : bool :=
  bool_decide (size (usageOf a) = 0%nat) && deleteUnusedFile a
  && negb (existsb skipped (exportsOf a)).

(** [changes] and [logs] before the switch. *)
Definition nothing : Collected := {| changes := []; logs := [] |}.

Definition processFile (fuel : nat) (a : ProcessArgs) : Outcome Result :=
  let usage := usageOf a in
  if has usage "*" then ret (OpEdit (currentText a) [])
  else
    let exports := exportsOf a in
    if deletesModule a then ret OpDelete
    else
      let* acc := forEach (switchItem (targetFile a) usage) exports nothing in
      if bool_decide (length (changes acc) = 0%nat)
      then ret (OpEdit (currentText a) (logs acc))
      else
        let text := applyTextChanges (currentText a) (changes acc) in
        let fileService := FS.set [] (targetFile a) text in
        let* text :=
          (if enableCodeFix a && bool_decide (0 < length (changes acc))%nat
           then let* text := fixLoop fuel (targetFile a) text in
                ret (applyCodeFix fixIdDeleteImports (targetFile a) text)
           else ret text) in
        let fileService := FS.set fileService (targetFile a) text in
        ret (OpEdit (FS.get fileService (targetFile a)) (logs acc)).

End ProcessFile.

(** ** [removeWholeExportSpecifier] *)

(** A module specifier is an expression; only a string literal has a
    [text] that is compared. *)
Inductive Expression :=
| StringLiteral (text : string)
| OtherExpression.

(** What [visit] inspects of a node: whether it is an export declaration,
    its [moduleSpecifier] and whether it has an [exportClause]. *)
Inductive NodeKind :=
| ExportDeclaration (moduleSpecifier : option Expression) (exportClause : bool)
| OtherNode.

(** A child of the source file, as [sourceFile.forEachChild] enumerates
    them, with [getFullStart()], [getFullWidth()], [getStart(sourceFile)]
    and [getText(sourceFile)]. *)
Record Node := {
  node_kind : NodeKind;
  fullStart : nat;
  fullWidth : nat;
  node_start : nat;
  node_text : string
}.

Record Info := { info_position : nat; info_code : string }.
Record Found := { textChange : TextChange; found_info : Info }.
Record Removed := { removed_info : Info; removed_content : string }.

(** The condition of [visit]: an export declaration with a string-literal
    module specifier equal to [specifier] and no export clause. *)
Definition isWholeReexportOf (specifier : string) (node : Node) : bool :=
  match node_kind node with
  | ExportDeclaration (Some (StringLiteral text)) false =>
      bool_decide (text = specifier)
  | _ => false
  end.

Definition removal (node : Node) : Found :=
  {| textChange := {| newText := EmptyString;
                      span := {| span_start := fullStart node;
                                 span_length := fullWidth node |} |};
     found_info := {| info_position := node_start node;
                      info_code := node_text node |} |}.

Definition visit (specifier : string) (result : list Found) (node : Node) : list Found :=
  if bool_decide (0 < length result)%nat then result
  else if isWholeReexportOf specifier node then result ++ [removal node]
  else result.

Section RemoveWholeExportSpecifier.

(** [ts.createSourceFile('tmp.ts', content, target)] followed by
    [forEachChild]: the children of the parsed file, in source order.
    The parser belongs to the TypeScript compiler. *)
Variable createSourceFile : string → list Node.
Variable applyTextChanges : string → list TextChange → string.

Definition removeWholeExportSpecifier (text specifier : string) : option Removed :=
  let result := foldl (visit specifier) [] (createSourceFile text) in
  match result !! 0%nat with
  | None => None
  | Some r =>
      Some {| removed_info := found_info r;
              removed_content := applyTextChanges text [textChange r] |}
  end.

End RemoveWholeExportSpecifier.

(** The text of a node with its leading trivia:
    [text.slice(node.getFullStart(), node.getFullStart() + node.getFullWidth())]. *)
Definition fullText (text : string) (node : Node) : string :=
  str_slice (fullStart node) (fullWidth node) text.

(** The children of a source file tile its text: the first starts at
    [offset], each one starts where the previous one ends, and the last one
    (the end-of-file token) ends at the end of the text. *)
Fixpoint tiles (offset : nat) (nodes : list Node) (len : nat) : Prop :=
  match nodes with
  | [] => offset = len
  | node :: nodes' =>
      fullStart node = offset ∧ tiles (offset + fullWidth node) nodes' len
  end.

(** Modelled from the spec: [applyTextChanges] is not under [src/]; §3
    describes the span of a change as where to cut the text.  Each change
    replaces [span_length] characters from [span_start] by [newText]; the
    changes are applied from the last position to the first so that earlier
    positions stay valid.  It is the instance used in the examples. *)
Definition applyTextChange (text : string) (c : TextChange) : string :=
  str_take (span_start (span c)) text +:+ newText c
  +:+ str_drop (span_start (span c) + span_length (span c)) text.

Fixpoint insertByStart (c : TextChange) (cs : list TextChange) : list TextChange :=
  match cs with
  | [] => [c]
  | c' :: cs' =>
      if bool_decide (span_start (span c') ≤ span_start (span c))%nat
      then c :: cs
      else c' :: insertByStart c cs'
  end.

Definition spliceTextChanges (text : string) (cs : list TextChange) : string :=
  foldl applyTextChange text (foldr insertByStart [] cs).

(** ** [removeUnusedExport] *)

Definition IGNORE_COMMENT : string := "ts-remove-unused-skip".

(** The calls received by the [editTracker], in order. *)
Inductive Event :=
| EvStart (file text : string)
| EvEnd (file : string)
| EvDelete (file : string)
| EvRemoveExport (file : string) (code : string) (position : nat).

(** The file an [editTracker] call is about. *)
Definition event_file (ev : Event) : string :=
  match ev with
  | EvStart file _ | EvEnd file | EvDelete file | EvRemoveExport file _ _ => file
  end.

(** The run configuration. *)
Record Config := {
  entrypoints : list string;
  cfg_deleteUnusedFile : bool;
  cfg_enableCodeFix : bool;
  recursive : bool
}.

(** The mutable objects shared by the seeding loop, the task callback and
    the deferred clean-up. *)
Record State := {
  fileService : Store;
  dependencyGraph : Vertexes;
  wholeReexportsToBeDeleted : list (string * string);
  editTracker : list Event
}.

Definition track (evs : list Event) (st : State) : State :=
  {| fileService := fileService st;
     dependencyGraph := dependencyGraph st;
     wholeReexportsToBeDeleted := wholeReexportsToBeDeleted st;
     editTracker := editTracker st ++ evs |}.

Definition withFiles (fs : Store) (st : State) : State :=
  {| fileService := fs;
     dependencyGraph := dependencyGraph st;
     wholeReexportsToBeDeleted := wholeReexportsToBeDeleted st;
     editTracker := editTracker st |}.

Definition withGraph (g : Vertexes) (st : State) : State :=
  {| fileService := fileService st;
     dependencyGraph := g;
     wholeReexportsToBeDeleted := wholeReexportsToBeDeleted st;
     editTracker := editTracker st |}.

Definition defer (items : list (string * string)) (st : State) : State :=
  {| fileService := fileService st;
     dependencyGraph := dependencyGraph st;
     wholeReexportsToBeDeleted := wholeReexportsToBeDeleted st ++ items;
     editTracker := editTracker st |}.

(** *** Seeding *)

Record Seeding := {
  filesOutsideOfGraphHasSkipComment : bool;
  initialFiles : list (string * Z);
  seed_state : State
}.

(** [vertex && vertex.data.depth < Infinity] *)
Definition reachableDepth (vertex : option Vertex) : option Z :=
  match vertex with
  | Some v => match depth (data v) with Finite d => Some d | Infinity => None end
  | None => None
  end.

(** The body of [for (const file of fileService.getFileNames())]. *)
Definition seedFile (cfg : Config) (acc : Seeding) (file : string) : Seeding :=
  if arr_includes (entrypoints cfg) file then acc
  else
    let st := seed_state acc in
    match reachableDepth (dependencyGraph st !! file) with
    | Some d =>
        {| filesOutsideOfGraphHasSkipComment := filesOutsideOfGraphHasSkipComment acc;
           initialFiles := initialFiles acc ++ [(file, d)];
           seed_state := st |}
    | None =>
        let flag :=
          if includes (FS.get (fileService st) file) IGNORE_COMMENT then true
          else filesOutsideOfGraphHasSkipComment acc in
        if cfg_deleteUnusedFile cfg && negb flag
           && negb (arr_includes (entrypoints cfg) file)
        then
          {| filesOutsideOfGraphHasSkipComment := flag;
             initialFiles := initialFiles acc;
             seed_state :=
               withFiles (FS.delete (fileService st) file)
                 (track [EvStart file (FS.get (fileService st) file);
                         EvDelete file] st) |}
        else
          {| filesOutsideOfGraphHasSkipComment := flag;
             initialFiles := initialFiles acc ++ [(file, (-1)%Z)];
             seed_state := st |}
    end.

Definition seed (cfg : Config) (st : State) : Seeding :=
  foldl (seedFile cfg)
    {| filesOutsideOfGraphHasSkipComment := false;
       initialFiles := [];
       seed_state := st |}
    (FS.getFileNames (fileService st)).

(** [initialFiles.sort((a, b) => a.depth - b.depth)]; the sort of an array
    is stable. *)
Fixpoint insertByDepth (x : string * Z) (l : list (string * Z)) : list (string * Z) :=
  match l with
  | [] => [x]
  | y :: l' =>
      if bool_decide (x.2 ≤ y.2)%Z then x :: l else y :: insertByDepth x l'
  end.

Definition sortByDepth (l : list (string * Z)) : list (string * Z) :=
  foldr insertByDepth [] l.

(** *** The task callback *)

(** [Array.from(vertex.to).filter((f) => !entrypoints.includes(f))] *)
Definition dependents (cfg : Config) (vertex : Vertex) : list string :=
  filter (λ f, arr_includes (entrypoints cfg) f = false) (to vertex).

(** The entries pushed on [wholeReexportsToBeDeleted] when [file] is
    deleted: one for each importer whose vertex still exists and recorded a
    non-empty whole re-export specifier for [file]. *)
Definition reexportsOf (g : Vertexes) (file : string) (vertex : Vertex)
    : list (string * string) :=
  omap (λ v,
          match g !! v with
          | None => None
          | Some target =>
              match wholeReexportSpecifier (data target) !! file with
              | Some specifier =>
                  if bool_decide (specifier = EmptyString) then None
                  else Some (v, specifier)
              | None => None
              end
          end)
       (from vertex).

(** [switch (result.operation)]: the state after the result of the
    analyzer is applied, and the files handed to [c.add].  [vertex] is the
    vertex read before the analyzer was invoked. *)
Definition applyResult (cfg : Config) (file : string) (vertex : option Vertex)
    (result : Result) (st : State) : State * list string :=
  match result with
  | OpDelete =>
      let st := track [EvStart file (FS.get (fileService st) file)] st in
      if arr_includes (entrypoints cfg) file then (track [EvEnd file] st, [])
      else
        let st := track [EvDelete file] st in
        let st := withFiles (FS.delete (fileService st) file) st in
        match vertex with
        | None => (st, [])
        | Some vertex =>
            let st := defer (reexportsOf (dependencyGraph st) file vertex) st in
            let st := withGraph (deleteVertex file (dependencyGraph st)) st in
            (st, if recursive cfg then dependents cfg vertex else [])
        end
  | OpEdit text removedExports =>
      let st :=
        track ([EvStart file (FS.get (fileService st) file)]
               ++ ((λ item, EvRemoveExport (fileName item) (log_code item) (position item))
                     <$> removedExports)
               ++ [EvEnd file]) st in
      let st := withFiles (FS.set (fileService st) file text) st in
      (st,
       match vertex with
       | Some vertex =>
           if bool_decide (0 < length removedExports)%nat && recursive cfg
           then dependents cfg vertex else []
       | None => []
       end)
  end.

(** What the rest of the program does to the shared state while the
    callback is suspended at its two [await]s, and what [c.signal.aborted]
    reads when it resumes. *)
Record Interleaving := {
  duringYield : State → State;
  abortedAfterYield : bool;
  duringAnalysis : State → State;
  abortedAfterAnalysis : bool
}.

(** Nothing else runs while the callback is suspended. *)
Definition alone : Interleaving :=
  {| duringYield := id; abortedAfterYield := false;
     duringAnalysis := id; abortedAfterAnalysis := false |}.

(** The arguments the callback passes to the analyzer. *)
Definition argsFor (cfg : Config) (file : string) (st : State) : ProcessArgs :=
  {| targetFile := file;
     vertexes := dependencyGraph st;
     files := FS.eject (fileService st);
     deleteUnusedFile := cfg_deleteUnusedFile cfg;
     enableCodeFix := cfg_enableCodeFix cfg |}.

Section Callback.

(** [pool ? pool.run.bind(pool) : processFile] *)
Variable fn : ProcessArgs → Outcome Result.
Variable cfg : Config.

(** [new TaskManager(async (c) => { ... })]: the callback run for the
    task of [file]. *)
Definition callback (i : Interleaving) (file : string) (st : State)
    : Outcome (State * list string) :=
  if negb (FS.exists_ (fileService st) file) then ret (st, [])
  else
    let vertex := dependencyGraph st !! file in
    let st := duringYield i st in
    if abortedAfterYield i then ret (st, [])
    else
      let* result := fn (argsFor cfg file st) in
      let st := duringAnalysis i st in
      if abortedAfterAnalysis i then ret (st, [])
      else ret (applyResult cfg file vertex result st).

End Callback.

(** The files handed to [c.add] by a run of the callback, and the state it
    leaves ([None] when it throws). *)
Definition enqueued (r : Outcome (State * list string)) : list string :=
  match r with
  | inr (_, added) => added
  | inl _ => []
  end.

Definition stateAfter (r : Outcome (State * list string)) : option State :=
  match r with
  | inr (st, _) => Some st
  | inl _ => None
  end.

(** *** The task scheduler *)

Inductive Status :=
| AtFixpoint
| Aborted (e : Exn)
| Unfinished.

(** The state of a run: how it stands, the shared state, the tasks
    executed so far (in order) and the tasks still queued. *)
Record Run := {
  status : Status;
  run_state : State;
  executed : list string;
  queue : list string
}.

Section TaskManager.

Variable fn : ProcessArgs → Outcome Result.
Variable cfg : Config.

(** Modelled from the spec: the [TaskManager] class is not under [src/].
    §4.2 describes a self-feeding queue of tasks that returns once the
    queue is empty, and whose execution with one worker is fully
    sequential; §7 makes a failing analyzer fatal to the run.  The model
    is that sequential execution: the first queued task is taken, its
    callback runs alone, the files it adds are queued behind the others.
    [fuel] bounds the number of tasks executed by the model. *)
Fixpoint execute (fuel : nat) (queue : list string) (st : State)
    (executed : list string) : Run :=
  match queue with
  | [] => {| status := AtFixpoint; run_state := st;
             executed := executed; queue := [] |}
  | file :: rest =>
      match fuel with
      | O => {| status := Unfinished; run_state := st;
                executed := executed; queue := queue |}
      | S fuel' =>
          match callback fn cfg alone file st with
          | inl e => {| status := Aborted e; run_state := st;
                        executed := executed ++ [file]; queue := rest |}
          | inr (st', added) =>
              execute fuel' (rest ++ added) st' (executed ++ [file])
          end
      end
  end.

End TaskManager.

(** *** The deferred clean-up and the whole run *)

Section RemoveUnusedExport.

Variable fn : ProcessArgs → Outcome Result.
Variable createSourceFile : string → list Node.
Variable applyTextChanges : string → list TextChange → string.
Variable cfg : Config.

(** The body of [for (const item of wholeReexportsToBeDeleted)]. *)
Definition cleanup (st : State) (item : string * string) : State :=
  let '(file, specifier) := item in
  if negb (FS.exists_ (fileService st) file) then st
  else
    let text := FS.get (fileService st) file in
    match removeWholeExportSpecifier createSourceFile applyTextChanges
            text specifier with
    | None => st
    | Some result =>
        track [EvStart file text;
               EvRemoveExport file (info_code (removed_info result))
                 (info_position (removed_info result));
               EvEnd file]
          (withFiles (FS.set (fileService st) file (removed_content result)) st)
    end.

(** [removeUnusedExport], from the dependency graph built by
    [collectImports]: seeding, the tasks, then the deferred clean-up when
    the tasks reached their fixpoint. *)
Definition removeUnusedExport (fuel : nat) (graph : Vertexes) (fs : Store) : Run :=
  let seeding :=
    seed cfg {| fileService := fs; dependencyGraph := graph;
                wholeReexportsToBeDeleted := []; editTracker := [] |} in
  let initial := sortByDepth (initialFiles seeding) in
  let run := execute fn cfg fuel (initial.*1) (seed_state seeding) [] in
  match status run with
  | AtFixpoint =>
      {| status := AtFixpoint;
         run_state :=
           foldl cleanup (run_state run)
             (wholeReexportsToBeDeleted (run_state run));
         executed := executed run;
         queue := queue run |}
  | _ => run
  end.

End RemoveUnusedExport.

(** ** The bound of the specification on the number of tasks *)

(** The largest number of export items of a module of the store, as
    [parseFile] reports them for the current texts. *)
Definition maxExports (parseFile : string → string → list string → list ExportItem)
    (graph : Vertexes) (fs : Store) : nat :=
  foldr Nat.max 0%nat
    ((λ e, length (parseFile e.1 (content e.2)
                     (match graph !! e.1 with Some v => to v | None => [] end)))
       <$> fs).

(** "The number of modules times the maximum exports per module". *)
Definition modulesTimesExports
    (parseFile : string → string → list string → list ExportItem)
    (graph : Vertexes) (fs : Store) : nat :=
  (length fs * maxExports parseFile graph fs)%nat.

(** The work left in a store, for a count of the exports of a text: one
    deletion and one edit per export for every module. *)
Definition remainingWork (exportCount : string → nat) (fs : Store) : nat :=
  foldr (λ e w, S (exportCount (content e.2)) + w)%nat 0%nat fs.

(** No module of the graph imports more than [d] modules. *)
Definition importsAtMost (d : nat) (g : Vertexes) : Prop :=
  map_Forall (λ _ v, (length (to v) ≤ d)%nat) g.

(** ** A small code base for the examples *)

Module Demo.

Definition exportX : string := "export const x = 1;".

(** A parser that knows one declaration: the text [exportX] exports [x],
    any other text exports nothing. *)
Definition parseFile (file text : string) (destFiles : list string)
    : list ExportItem :=
  if bool_decide (text = exportX)
  then [VariableStatement ["x"]
          {| code := exportX;
             change_span := {| span_start := 0; span_length := 19 |};
             isUnnamedDefaultExport := false |}
          false 0]
  else [].

(** The number of exports [parseFile] reports for a text. *)
Definition exportCount (text : string) : nat :=
  length (parseFile EmptyString text []).

(** Nothing is used by any importer. *)
Definition findFileUsage (file : string) (vs : Vertexes)
    (files : gmap string string) : gset string := ∅.

Definition stripExportKeyword (code : string) : string := EmptyString.
Definition updateExportDeclaration (code : string) (unused : list string)
    : string := code.
Definition applyCodeFix (fixId : FixId) (file text : string) : string := text.

Definition analyze : ProcessArgs → Outcome Result :=
  processFile findFileUsage parseFile spliceTextChanges stripExportKeyword
    updateExportDeclaration applyCodeFix 1.

Definition vertex (to_ from_ : list string) (d : Depth) : Vertex :=
  {| to := to_; from := from_;
     data := {| depth := d; wholeReexportSpecifier := ∅ |} |}.

(** [a.ts] imports [b.ts] and [c.ts], which both import [d.ts]. *)
Definition graph : Vertexes :=
  <["a.ts" := vertex ["b.ts"; "c.ts"] [] (Finite 0)]>
  (<["b.ts" := vertex ["d.ts"] ["a.ts"] (Finite 1)]>
  (<["c.ts" := vertex ["d.ts"] ["a.ts"] (Finite 1)]>
  (<["d.ts" := vertex [] ["b.ts"; "c.ts"] (Finite 2)]> ∅))).

Definition file (text : string) : File := {| content := text; version := 1 |}.

Definition store : Store :=
  [("a.ts", file "import './b'; import './c';");
   ("b.ts", file exportX);
   ("c.ts", file exportX);
   ("d.ts", file exportX)].

Definition config : Config :=
  {| entrypoints := ["a.ts"];
     cfg_deleteUnusedFile := false;
     cfg_enableCodeFix := false;
     recursive := true |}.

Definition state : State :=
  {| fileService := store; dependencyGraph := graph;
     wholeReexportsToBeDeleted := []; editTracker := [] |}.

(** Two modules outside the graph; the second carries the skip marker. *)
Definition orphans : Store :=
  [("a.ts", file "export {};");
   ("b.ts", file "export const y = 2;");
   ("c.ts", file "/* ts-remove-unused-skip */ export const z = 3;")].

Definition orphansReversed : Store :=
  [("a.ts", file "export {};");
   ("c.ts", file "/* ts-remove-unused-skip */ export const z = 3;");
   ("b.ts", file "export const y = 2;")].

Definition onlyEntrypoint : Vertexes :=
  <["a.ts" := vertex [] [] (Finite 0)]> ∅.

Definition deleting : Config :=
  {| entrypoints := ["a.ts"];
     cfg_deleteUnusedFile := true;
     cfg_enableCodeFix := false;
     recursive := true |}.

Definition initially (fs : Store) (g : Vertexes) : State :=
  {| fileService := fs; dependencyGraph := g;
     wholeReexportsToBeDeleted := []; editTracker := [] |}.

(** While the analyzer runs for [b.ts], another task deletes [b.ts]; the
    signal of the task is not aborted. *)
Definition deletedMeanwhile : Interleaving :=
  {| duringYield := id;
     abortedAfterYield := false;
     duringAnalysis := λ st, withFiles (FS.delete (fileService st) "b.ts") st;
     abortedAfterAnalysis := false |}.

(** The signal of the task is aborted while the analyzer runs. *)
Definition abortedMeanwhile : Interleaving :=
  {| duringYield := id;
     abortedAfterYield := false;
     duringAnalysis := id;
     abortedAfterAnalysis := true |}.

(** A code base without exports. *)
Definition plainStore : Store :=
  [("a.ts", file "import './b';"); ("b.ts", file "console.log(1);")].

Definition plainGraph : Vertexes :=
  <["a.ts" := vertex ["b.ts"] [] (Finite 0)]>
  (<["b.ts" := vertex [] ["a.ts"] (Finite 1)]> ∅).

(** A module with a merged declaration: the interface [Foo] carries the
    skip marker, the constant [Foo] does not. *)
Definition merged : string :=
  "export interface Foo {}export const Foo = 1;".

Definition skippedFoo : ExportItem :=
  InterfaceDeclaration "Foo"
    {| code := "export interface Foo {}";
       change_span := {| span_start := 0; span_length := 23 |};
       isUnnamedDefaultExport := false |}
    true 0.

Definition constantFoo : ExportItem :=
  VariableStatement ["Foo"]
    {| code := "export const Foo = 1;";
       change_span := {| span_start := 23; span_length := 21 |};
       isUnnamedDefaultExport := false |}
    false 23.

Definition parseMerged (file text : string) (destFiles : list string)
    : list ExportItem :=
  [skippedFoo; constantFoo].




(** A parser that reports an item of a kind outside the union. *)
Definition parseOdd (file text : string) (destFiles : list string)
    : list ExportItem :=
  [OtherKind 999 None 0].

Definition args (file text : string) (deleteUnused : bool) : ProcessArgs :=
  {| targetFile := file;
     vertexes := ∅;
     files := {[ file := text ]};
     deleteUnusedFile := deleteUnused;
     enableCodeFix := false |}.

(** A module that re-exports everything from [./c] twice. *)
Definition reexport : string := "export * from './c';".
Definition twice : string := reexport +:+ reexport.

Definition reexportAt (pos : nat) : Node :=
  {| node_kind := ExportDeclaration (Some (StringLiteral "./c")) false;
     fullStart := pos; fullWidth := 20;
     node_start := pos; node_text := reexport |}.

Definition endOfFile (pos : nat) : Node :=
  {| node_kind := OtherNode; fullStart := pos; fullWidth := 0;
     node_start := pos; node_text := EmptyString |}.

Definition parseReexports (text : string) : list Node :=
  if bool_decide (text = twice)
  then [reexportAt 0; reexportAt 20; endOfFile 40]
  else if bool_decide (text = reexport)
  then [reexportAt 0; endOfFile 20]
  else [endOfFile (String.length text)].

Definition reexporting : State :=
  {| fileService := [("d.ts", file twice)];
     dependencyGraph := ∅;
     wholeReexportsToBeDeleted := [("d.ts", "./c")];
     editTracker := [] |}.

(** A usage set in which [x] is used. *)
Definition usesX (file : string) (vs : Vertexes)
    (files : gmap string string) : gset string := {["x"]}.

(** A code fix that removes the first character of the text. *)
Definition trimFix (fixId : FixId) (file text : string) : string :=
  match text with
  | EmptyString => EmptyString
  | String _ rest => rest
  end.

(** A code fix that always changes the text. *)
Definition growFix (fixId : FixId) (file text : string) : string :=
  text +:+ "!".

(** The example configuration without cascading propagation. *)
Definition flat : Config :=
  {| entrypoints := ["a.ts"];
     cfg_deleteUnusedFile := false;
     cfg_enableCodeFix := false;
     recursive := false |}.






(** The source file is not parsed in these runs. *)
Definition createSourceFile (text : string) : list Node := [].

End Demo.

(** * Properties *)

(** ** The Module Store *)

Lemma find_set_eq (fs : Store) name text :
  FS.find (FS.set fs name text) name =
  Some {| content := text;
          version := S (FS.getVersion fs name) |}.
Proof.
  unfold FS.getVersion.
  induction fs as [|[n f] fs IH]; simpl.
  - rewrite bool_decide_eq_true_2; done.
  - destruct (bool_decide (n = name)) eqn:E; simpl; rewrite E; done.
Qed.

Lemma find_set_ne (fs : Store) name text other :
  name ≠ other → FS.find (FS.set fs name text) other = FS.find fs other.
Proof.
  intros Hne. induction fs as [|[n f] fs IH]; simpl.
  - rewrite bool_decide_eq_false_2; done.
  - destruct (bool_decide (n = name)) eqn:E; simpl.
    + apply bool_decide_eq_true_1 in E. subst n.
      rewrite bool_decide_eq_false_2; done.
    + destruct (bool_decide (n = other)); done.
Qed.

Lemma find_delete_eq (fs : Store) name : FS.find (FS.delete fs name) name = None.
Proof.
  unfold FS.delete. induction fs as [|[n f] fs IH]; [done|].
  rewrite filter_cons. simpl. case_decide as Hn; simpl; [|done].
  rewrite bool_decide_eq_false_2; done.
Qed.

Lemma find_delete_ne (fs : Store) name other :
  name ≠ other → FS.find (FS.delete fs name) other = FS.find fs other.
Proof.
  intros Hne. unfold FS.delete. induction fs as [|[n f] fs IH]; [done|].
  rewrite filter_cons. simpl. case_decide as Hn; simpl.
  - rewrite IH. done.
  - subst n. rewrite bool_decide_eq_false_2; done.
Qed.

Lemma get_set_eq (fs : Store) name text : FS.get (FS.set fs name text) name = text.
Proof. unfold FS.get. rewrite find_set_eq. done. Qed.

Lemma exists_set (fs : Store) name text other :
  FS.exists_ fs other = true → FS.exists_ (FS.set fs name text) other = true.
Proof.
  unfold FS.exists_. destruct (decide (name = other)) as [->|Hne].
  - rewrite find_set_eq. done.
  - rewrite find_set_ne; done.
Qed.

Lemma eject_lookup (fs : Store) name :
  FS.eject fs !! name = content <$> FS.find fs name.
Proof.
  unfold FS.eject. induction fs as [|[n f] fs IH]; simpl.
  - apply lookup_empty.
  - destruct (bool_decide (n = name)) eqn:E.
    + apply bool_decide_eq_true_1 in E. subst. apply lookup_insert_eq.
    + apply bool_decide_eq_false_1 in E. rewrite lookup_insert_ne; done.
Qed.

Lemma eject_get (fs : Store) name :
  default EmptyString (FS.eject fs !! name) = FS.get fs name.
Proof. rewrite eject_lookup. unfold FS.get. destruct (FS.find fs name); done. Qed.

Lemma arr_includes_true xs x : arr_includes xs x = true ↔ x ∈ xs.
Proof. unfold arr_includes. apply bool_decide_eq_true. Qed.

Lemma arr_includes_false xs x : arr_includes xs x = false ↔ x ∉ xs.
Proof. unfold arr_includes. apply bool_decide_eq_false. Qed.

(** ** Seeding *)

(** What seeding does to a file of the store depends on whether it is
    deleted; a file that is kept is kept as it is. *)
Lemma seedFile_find cfg acc file other :
  file ≠ other →
  FS.find (fileService (seed_state (seedFile cfg acc file))) other =
  FS.find (fileService (seed_state acc)) other.
Proof.
  intros Hne. unfold seedFile.
  destruct (arr_includes (entrypoints cfg) file); [done|].
  destruct (reachableDepth _); [done|].
  destruct (_ && _); simpl; [|done].
  by apply find_delete_ne.
Qed.

Lemma seedFile_entrypoint cfg acc file :
  file ∈ entrypoints cfg → seedFile cfg acc file = acc.
Proof.
  intros Hin. unfold seedFile.
  apply arr_includes_true in Hin. rewrite Hin. done.
Qed.

Lemma seedFile_graph cfg acc file :
  dependencyGraph (seed_state (seedFile cfg acc file)) =
  dependencyGraph (seed_state acc)
  ∧ wholeReexportsToBeDeleted (seed_state (seedFile cfg acc file)) =
    wholeReexportsToBeDeleted (seed_state acc).
Proof.
  unfold seedFile.
  destruct (arr_includes (entrypoints cfg) file); [done|].
  destruct (reachableDepth _); [done|].
  destruct (_ && _); done.
Qed.

Lemma seedFile_initial cfg acc file f :
  f ∈ (initialFiles (seedFile cfg acc file)).*1 →
  f ∈ (initialFiles acc).*1 ∨ (f = file ∧ file ∉ entrypoints cfg).
Proof.
  unfold seedFile.
  destruct (arr_includes (entrypoints cfg) file) eqn:E; [auto|].
  apply arr_includes_false in E.
  destruct (reachableDepth _); simpl.
  - rewrite fmap_app, elem_of_app. simpl. rewrite list_elem_of_singleton. naive_solver.
  - destruct (_ && _); simpl; [auto|].
    rewrite fmap_app, elem_of_app. simpl. rewrite list_elem_of_singleton. naive_solver.
Qed.

Lemma seed_fold_keeps cfg names acc other :
  other ∈ entrypoints cfg →
  FS.find (fileService (seed_state (foldl (seedFile cfg) acc names))) other =
  FS.find (fileService (seed_state acc)) other.
Proof.
  intros Hin. revert acc. induction names as [|file names IH]; intros acc; [done|].
  simpl. rewrite IH.
  destruct (decide (file = other)) as [->|Hne].
  - by rewrite seedFile_entrypoint.
  - by apply seedFile_find.
Qed.

Lemma seed_fold_initial cfg names acc f :
  f ∈ (initialFiles (foldl (seedFile cfg) acc names)).*1 →
  f ∈ (initialFiles acc).*1 ∨ f ∉ entrypoints cfg.
Proof.
  revert acc. induction names as [|file names IH]; intros acc; simpl; [auto|].
  intros Hin. apply IH in Hin as [Hin|Hin]; [|auto].
  apply seedFile_initial in Hin. naive_solver.
Qed.

Lemma seed_fold_graph cfg names acc :
  dependencyGraph (seed_state (foldl (seedFile cfg) acc names)) =
  dependencyGraph (seed_state acc)
  ∧ wholeReexportsToBeDeleted (seed_state (foldl (seedFile cfg) acc names)) =
    wholeReexportsToBeDeleted (seed_state acc).
Proof.
  revert acc. induction names as [|file names IH]; intros acc; simpl; [done|].
  destruct (IH (seedFile cfg acc file)) as [-> ->]. apply seedFile_graph.
Qed.

Lemma insertByDepth_elem x l y : y ∈ insertByDepth x l ↔ y = x ∨ y ∈ l.
Proof.
  induction l as [|z l IH]; simpl.
  - rewrite list_elem_of_singleton. set_solver.
  - case_bool_decide; set_solver.
Qed.

Lemma sortByDepth_elem l y : y ∈ sortByDepth l ↔ y ∈ l.
Proof.
  unfold sortByDepth. induction l as [|x l IH]; simpl; [done|].
  rewrite insertByDepth_elem. set_solver.
Qed.

Lemma insertByDepth_length x l : length (insertByDepth x l) = S (length l).
Proof.
  induction l as [|z l IH]; simpl; [done|].
  case_bool_decide; simpl; [done|]. by rewrite IH.
Qed.

Lemma sortByDepth_length l : length (sortByDepth l) = length l.
Proof.
  unfold sortByDepth. induction l as [|x l IH]; simpl; [done|].
  by rewrite insertByDepth_length, IH.
Qed.

(** ** The task callback and the scheduler keep the entrypoints *)

Lemma exists_delete_ne (fs : Store) name other :
  name ≠ other → FS.exists_ (FS.delete fs name) other = FS.exists_ fs other.
Proof. intros Hne. unfold FS.exists_. by rewrite find_delete_ne. Qed.

Lemma applyResult_keeps cfg file vertex result st e :
  e ∈ entrypoints cfg →
  FS.exists_ (fileService st) e = true →
  FS.exists_ (fileService (applyResult cfg file vertex result st).1) e = true.
Proof.
  intros He Hex. destruct result as [|text removed]; simpl.
  - destruct (arr_includes (entrypoints cfg) file) eqn:E; simpl; [done|].
    apply arr_includes_false in E.
    assert (file ≠ e) by (intros ->; done).
    destruct vertex; simpl; by rewrite exists_delete_ne.
  - by apply exists_set.
Qed.

Lemma callback_alone fn cfg file st :
  callback fn cfg alone file st =
  if negb (FS.exists_ (fileService st) file) then ret (st, [])
  else
    let* result := fn (argsFor cfg file st) in
    ret (applyResult cfg file (dependencyGraph st !! file) result st).
Proof. reflexivity. Qed.

Lemma callback_keeps fn cfg file st st' added e :
  e ∈ entrypoints cfg →
  callback fn cfg alone file st = inr (st', added) →
  FS.exists_ (fileService st) e = true →
  FS.exists_ (fileService st') e = true.
Proof.
  intros He. rewrite callback_alone. unfold ret, bind.
  destruct (negb _).
  - intros ? ?; by simplify_eq.
  - destruct (fn _) as [ex|result]; [done|].
    intros Heq Hex. injection Heq as Heq.
    replace st' with (applyResult cfg file (dependencyGraph st !! file) result st).1
      by (by rewrite Heq).
    by apply applyResult_keeps.
Qed.

Lemma execute_keeps fn cfg e fuel :
  e ∈ entrypoints cfg →
  ∀ queue st executed,
    FS.exists_ (fileService st) e = true →
    FS.exists_ (fileService (run_state (execute fn cfg fuel queue st executed))) e
    = true.
Proof.
  intros He. induction fuel as [|fuel IH]; intros queue st executed Hex.
  - destruct queue; done.
  - destruct queue as [|file rest]; simpl; [done|].
    destruct (callback fn cfg alone file st) as [ex|[st' added]] eqn:E; simpl; [done|].
    apply IH. by eapply callback_keeps.
Qed.

Lemma cleanup_keeps csf atc st item e :
  FS.exists_ (fileService st) e = true →
  FS.exists_ (fileService (cleanup csf atc st item)) e = true.
Proof.
  intros Hex. destruct item as [file specifier]. simpl.
  destruct (negb _); [done|].
  destruct (removeWholeExportSpecifier _ _ _ _); simpl; [|done].
  by apply exists_set.
Qed.

Lemma cleanup_fold_keeps csf atc items st e :
  FS.exists_ (fileService st) e = true →
  FS.exists_ (fileService (foldl (cleanup csf atc) st items)) e = true.
Proof.
  revert st. induction items as [|item items IH]; intros st Hex; simpl; [done|].
  apply IH. by apply cleanup_keeps.
Qed.

Lemma removeUnusedExport_keeps fn csf atc cfg fuel graph fs e :
  e ∈ entrypoints cfg →
  FS.exists_ fs e = true →
  FS.exists_
    (fileService (run_state (removeUnusedExport fn csf atc cfg fuel graph fs))) e
  = true.
Proof.
  intros He Hex. unfold removeUnusedExport.
  set (seeding := seed cfg _).
  assert (FS.exists_ (fileService (seed_state seeding)) e = true) as Hseed.
  { unfold FS.exists_, seeding, seed. rewrite seed_fold_keeps by done. apply Hex. }
  pose proof (execute_keeps fn cfg e fuel He
                (sortByDepth (initialFiles seeding)).*1 _ [] Hseed) as Hrun.
  destruct (status _); simpl; [|done..].
  by apply cleanup_fold_keeps.
Qed.

(** C1.  An entrypoint is never deleted from the Module Store.  For an
    entrypoint [e] of any configuration: seeding leaves its file as it is
    and seeds no task for it; applying a [Delete] result to [e] leaves the
    store, the graph and the deferred list unchanged, emits only the
    [start] and [end] notifications and enqueues nothing; applying any
    result of any task keeps [e] in the store; and after any number of
    tasks of the whole run, whatever the analyzer returns, [e] is still in
    the store. *)
Theorem entrypoint_never_deleted cfg e :
  e ∈ entrypoints cfg →
  (∀ st,
      FS.find (fileService (seed_state (seed cfg st))) e = FS.find (fileService st) e
      ∧ e ∉ (sortByDepth (initialFiles (seed cfg st))).*1)
  ∧ (∀ vertex st,
        let '(st', added) := applyResult cfg e vertex OpDelete st in
        fileService st' = fileService st
        ∧ dependencyGraph st' = dependencyGraph st
        ∧ wholeReexportsToBeDeleted st' = wholeReexportsToBeDeleted st
        ∧ editTracker st' =
            (editTracker st ++ [EvStart e (FS.get (fileService st) e); EvEnd e])%list
        ∧ added = [])
  ∧ (∀ file vertex result st,
        FS.exists_ (fileService st) e = true →
        FS.exists_ (fileService (applyResult cfg file vertex result st).1) e = true)
  ∧ (∀ fn createSourceFile applyTextChanges fuel graph fs,
        FS.exists_ fs e = true →
        FS.exists_
          (fileService
             (run_state
                (removeUnusedExport fn createSourceFile applyTextChanges cfg
                   fuel graph fs))) e
        = true).
Proof.
  intros He. repeat split.
  - unfold seed. by apply seed_fold_keeps.
  - intros Hin. apply list_elem_of_fmap in Hin as [[f d] [Heq Hin]].
    simpl in Heq. subst f. rename e into f.
    rewrite sortByDepth_elem in Hin.
    assert (f ∈ (initialFiles (seed cfg st)).*1) as Hf.
    { apply list_elem_of_fmap. exists (f, d). split; [reflexivity|exact Hin]. }
    unfold seed in Hf. apply seed_fold_initial in Hf as [Hf|Hf]; [|done].
    simpl in Hf. by apply elem_of_nil in Hf.
  - intros vertex st. simpl.
    apply arr_includes_true in He. rewrite He. simpl.
    rewrite <- app_assoc. done.
  - intros. by apply applyResult_keeps.
  - intros. by apply removeUnusedExport_keeps.
Qed.

Lemma entrypoint_never_deleted_witness :
  FS.exists_
    (fileService
       (run_state
          (removeUnusedExport Demo.analyze Demo.createSourceFile spliceTextChanges
             Demo.deleting 10 Demo.graph Demo.store))) "a.ts"
  = true.
Proof.
  destruct (entrypoint_never_deleted Demo.deleting "a.ts") as (_ & _ & _ & Hrun).
  - apply list_elem_of_here.
  - apply Hrun. reflexivity.
Defined.

(** ** What an edit enqueues *)

Lemma dependents_elem cfg vertex f :
  f ∈ dependents cfg vertex ↔ f ∈ to vertex ∧ f ∉ entrypoints cfg.
Proof.
  unfold dependents. rewrite list_elem_of_filter, arr_includes_false. tauto.
Qed.

(** C3, as stated, fails.  In the example code base [d.ts] is imported by
    [b.ts] and [c.ts] and imports nothing; its task returns an edit that
    removed the export [x], propagation is enabled, and nothing is
    enqueued although its importers are not entrypoints.  The task of
    [b.ts], imported only by the entrypoint, enqueues [d.ts], which [b.ts]
    imports. *)
Lemma edit_does_not_enqueue_importers :
  recursive Demo.config = true
  ∧ Demo.analyze (argsFor Demo.config "d.ts" Demo.state)
    = inr (OpEdit EmptyString [{| fileName := "d.ts"; position := 0; log_code := "x" |}])
  ∧ from <$> (Demo.graph !! "d.ts") = Some ["b.ts"; "c.ts"]
  ∧ filter (λ f, f ∉ entrypoints Demo.config) ["b.ts"; "c.ts"] = ["b.ts"; "c.ts"]
  ∧ enqueued (callback Demo.analyze Demo.config alone "d.ts" Demo.state) = []
  ∧ from <$> (Demo.graph !! "b.ts") = Some ["a.ts"]
  ∧ enqueued (callback Demo.analyze Demo.config alone "b.ts" Demo.state) = ["d.ts"].
Proof. vm_compute. repeat split; reflexivity. Qed.

(** C3, amended.  When the task of an existing module returns an edit that
    removed at least one export and propagation is enabled, the modules
    enqueued are exactly the modules of the [to] set of its vertex, that is
    the modules it imports, that are not entrypoints, in the order of that
    set; nothing is enqueued when the module has no vertex. *)
Theorem edit_enqueues_imports fn cfg file st text removed :
  FS.exists_ (fileService st) file = true →
  fn (argsFor cfg file st) = inr (OpEdit text removed) →
  removed ≠ [] →
  recursive cfg = true →
  enqueued (callback fn cfg alone file st) =
    match dependencyGraph st !! file with
    | Some vertex => dependents cfg vertex
    | None => []
    end
  ∧ ∀ vertex f,
      dependencyGraph st !! file = Some vertex →
      (f ∈ enqueued (callback fn cfg alone file st) ↔
       f ∈ to vertex ∧ f ∉ entrypoints cfg).
Proof.
  intros Hex Hfn Hrem Hrec.
  assert (enqueued (callback fn cfg alone file st) =
          match dependencyGraph st !! file with
          | Some vertex => dependents cfg vertex
          | None => []
          end) as Heq.
  { rewrite callback_alone, Hex. simpl. rewrite Hfn. simpl.
    destruct (dependencyGraph st !! file); [|done].
    rewrite Hrec. destruct removed; [done|]. done. }
  split; [done|].
  intros vertex f Hv. rewrite Heq, Hv. apply dependents_elem.
Qed.

Lemma edit_enqueues_imports_witness :
  enqueued (callback Demo.analyze Demo.config alone "b.ts" Demo.state) = ["d.ts"].
Proof.
  apply (edit_enqueues_imports Demo.analyze Demo.config "b.ts" Demo.state
           EmptyString [{| fileName := "b.ts"; position := 0; log_code := "x" |}]);
    [reflexivity | vm_compute; reflexivity | discriminate | reflexivity].
Defined.

(** ** The skip marker outside the graph *)

Lemma seed_fold_find cfg names acc other :
  other ∉ names →
  FS.find (fileService (seed_state (foldl (seedFile cfg) acc names))) other =
  FS.find (fileService (seed_state acc)) other.
Proof.
  revert acc. induction names as [|file names IH]; intros acc Hnot; [done|].
  apply not_elem_of_cons in Hnot as [Hne Hnot].
  simpl. rewrite IH by done. by apply seedFile_find.
Qed.

(** Once the flag is set, the loop deletes nothing more. *)
Lemma seedFile_flagged cfg acc file :
  filesOutsideOfGraphHasSkipComment acc = true →
  filesOutsideOfGraphHasSkipComment (seedFile cfg acc file) = true
  ∧ fileService (seed_state (seedFile cfg acc file)) = fileService (seed_state acc).
Proof.
  intros Hflag. unfold seedFile.
  destruct (arr_includes (entrypoints cfg) file); [done|].
  destruct (reachableDepth _); [done|].
  rewrite Hflag. destruct (includes _ _); simpl;
    rewrite andb_false_r; simpl; done.
Qed.

Lemma seed_fold_flagged cfg names acc :
  filesOutsideOfGraphHasSkipComment acc = true →
  fileService (seed_state (foldl (seedFile cfg) acc names)) =
  fileService (seed_state acc).
Proof.
  revert acc. induction names as [|file names IH]; intros acc Hflag; [done|].
  simpl. destruct (seedFile_flagged cfg acc file Hflag) as [Hflag' Hfs].
  rewrite IH by done. done.
Qed.

(** A marked module outside the graph sets the flag and is kept. *)
Lemma seedFile_marked cfg acc file :
  file ∉ entrypoints cfg →
  reachableDepth (dependencyGraph (seed_state acc) !! file) = None →
  includes (FS.get (fileService (seed_state acc)) file) IGNORE_COMMENT = true →
  filesOutsideOfGraphHasSkipComment (seedFile cfg acc file) = true
  ∧ fileService (seed_state (seedFile cfg acc file)) = fileService (seed_state acc).
Proof.
  intros Hentry Hdepth Hmark. unfold seedFile.
  apply arr_includes_false in Hentry. rewrite Hentry, Hdepth, Hmark.
  rewrite andb_false_r. simpl. done.
Qed.

(** C4, as stated, fails: the outcome depends on the order of enumeration.
    [b.ts] and [c.ts] are outside the graph, deletion of unused modules is
    enabled, and [c.ts] carries the marker.  When [b.ts] is enumerated
    first it is deleted during seeding; when [c.ts] is enumerated first,
    [b.ts] is kept. *)
Lemma marker_after_deletion_is_too_late :
  cfg_deleteUnusedFile Demo.deleting = true
  ∧ reachableDepth (Demo.onlyEntrypoint !! "b.ts") = None
  ∧ reachableDepth (Demo.onlyEntrypoint !! "c.ts") = None
  ∧ includes (FS.get Demo.orphans "c.ts") IGNORE_COMMENT = true
  ∧ FS.getFileNames Demo.orphans = ["a.ts"; "b.ts"; "c.ts"]
  ∧ FS.getFileNames
      (fileService
         (seed_state
            (seed Demo.deleting (Demo.initially Demo.orphans Demo.onlyEntrypoint))))
    = ["a.ts"; "c.ts"]
  ∧ FS.getFileNames Demo.orphansReversed = ["a.ts"; "c.ts"; "b.ts"]
  ∧ FS.getFileNames
      (fileService
         (seed_state
            (seed Demo.deleting
               (Demo.initially Demo.orphansReversed Demo.onlyEntrypoint))))
    = ["a.ts"; "c.ts"; "b.ts"].
Proof. vm_compute. repeat split; reflexivity. Qed.

(** C4, amended.  During seeding, when a module [m] that is not an
    entrypoint and is outside the reachable graph carries the skip marker,
    no module enumerated at or after the first occurrence of [m] is deleted:
    every file that is not enumerated before [m] is in the store after
    seeding exactly as it was before. *)
Theorem marker_stops_deletion cfg st pre m post :
  FS.getFileNames (fileService st) = (pre ++ m :: post)%list →
  m ∉ pre →
  m ∉ entrypoints cfg →
  reachableDepth (dependencyGraph st !! m) = None →
  includes (FS.get (fileService st) m) IGNORE_COMMENT = true →
  ∀ f, f ∉ pre →
       FS.find (fileService (seed_state (seed cfg st))) f
       = FS.find (fileService st) f.
Proof.
  intros Hnames Hfirst Hentry Hdepth Hmark f Hf.
  unfold seed. rewrite Hnames, foldl_app. simpl.
  set (acc0 := {| filesOutsideOfGraphHasSkipComment := false;
                  initialFiles := []; seed_state := st |}).
  set (acc1 := foldl (seedFile cfg) acc0 pre).
  assert (FS.find (fileService (seed_state acc1)) m = FS.find (fileService st) m)
    as Hm by (by apply seed_fold_find).
  destruct (seedFile_marked cfg acc1 m) as [Hflag Hfs].
  - done.
  - unfold acc1. destruct (seed_fold_graph cfg pre acc0) as [-> _]. done.
  - unfold FS.get. rewrite Hm. apply Hmark.
  - rewrite seed_fold_flagged, Hfs by done.
    by apply seed_fold_find.
Qed.

Lemma marker_stops_deletion_witness :
  FS.find
    (fileService
       (seed_state
          (seed Demo.deleting
             (Demo.initially Demo.orphansReversed Demo.onlyEntrypoint)))) "b.ts"
  = Some (Demo.file "export const y = 2;").
Proof.
  apply (marker_stops_deletion Demo.deleting
           (Demo.initially Demo.orphansReversed Demo.onlyEntrypoint)
           ["a.ts"] "c.ts" ["b.ts"]).
  - reflexivity.
  - apply not_elem_of_cons; split; [discriminate | apply not_elem_of_nil].
  - apply not_elem_of_cons; split; [discriminate | apply not_elem_of_nil].
  - reflexivity.
  - reflexivity.
  - apply not_elem_of_cons; split; [discriminate | apply not_elem_of_nil].
Defined.

(** ** Tasks that are discarded *)

(** C5, as stated, fails: after the analyzer returns the callback reads the
    cancellation signal of the task and does not look at the store again.
    [b.ts] is in the store when its task starts and is deleted while the
    analyzer runs; the signal is not aborted.  The edit returned by the
    analyzer is applied: [b.ts] is written back to the store and [d.ts] is
    enqueued. *)
Lemma missing_module_is_not_rechecked :
  FS.exists_ (fileService Demo.state) "b.ts" = true
  ∧ FS.exists_
      (fileService
         (duringAnalysis Demo.deletedMeanwhile
            (duringYield Demo.deletedMeanwhile Demo.state))) "b.ts" = false
  ∧ (λ st, FS.find (fileService st) "b.ts")
      <$> stateAfter
            (callback Demo.analyze Demo.config Demo.deletedMeanwhile "b.ts" Demo.state)
    = Some (Some {| content := EmptyString; version := 1 |})
  ∧ enqueued
      (callback Demo.analyze Demo.config Demo.deletedMeanwhile "b.ts" Demo.state)
    = ["d.ts"].
Proof. vm_compute. repeat split; reflexivity. Qed.

(** C5, amended.  The callback checks that the module of the task exists
    in the store before it invokes the analyzer, and reads the cancellation
    signal of the task just before the analyzer is invoked and immediately
    after it returns.  When the module does not exist at the first check,
    or the signal is aborted at either reading, the callback changes
    neither the store nor the graph and enqueues nothing: it returns the
    shared state as the rest of the program left it (or rethrows what the
    analyzer threw). *)
Theorem task_discarded fn cfg i file st :
  FS.exists_ (fileService st) file = false
  ∨ abortedAfterYield i = true
  ∨ abortedAfterAnalysis i = true →
  callback fn cfg i file st =
    if negb (FS.exists_ (fileService st) file) then ret (st, [])
    else if abortedAfterYield i then ret (duringYield i st, [])
    else let* result := fn (argsFor cfg file (duringYield i st)) in
         ret (duringAnalysis i (duringYield i st), []).
Proof.
  intros H. unfold callback.
  destruct (FS.exists_ (fileService st) file) eqn:Hex; simpl; [|done].
  destruct (abortedAfterYield i) eqn:Hy; [done|].
  destruct H as [H|[H|H]]; [done..|].
  destruct (fn _); simpl; [done|].
  by rewrite H.
Qed.

Lemma task_discarded_witness :
  callback Demo.analyze Demo.config Demo.abortedMeanwhile "b.ts" Demo.state
  = ret (Demo.state, []).
Proof.
  etrans.
  - apply (task_discarded Demo.analyze Demo.config Demo.abortedMeanwhile
             "b.ts" Demo.state).
    right. right. reflexivity.
  - vm_compute. reflexivity.
Defined.

(** ** Wildcard usage *)


Lemma exists_set_present (fs : Store) name text other :
  FS.exists_ fs name = true →
  FS.exists_ (FS.set fs name text) other = FS.exists_ fs other.
Proof.
  intros Hex. destruct (decide (name = other)) as [->|Hne].
  - rewrite Hex. by apply exists_set.
  - unfold FS.exists_. by rewrite find_set_ne.
Qed.


Section ProcessFileFacts.

Variable findFileUsage : string → Vertexes → gmap string string → gset string.
Variable parseFile : string → string → list string → list ExportItem.
Variable applyTextChanges : string → list TextChange → string.
Variable stripExportKeyword : string → string.
Variable updateExportDeclaration : string → list string → string.
Variable applyCodeFix : FixId → string → string → string.
Variable fuel : nat.

Local Abbreviation analyze :=
  (processFile findFileUsage parseFile applyTextChanges stripExportKeyword
     updateExportDeclaration applyCodeFix fuel).
Local Abbreviation switch := (switchItem stripExportKeyword updateExportDeclaration).
Local Abbreviation usage := (usageOf findFileUsage).
Local Abbreviation exports := (exportsOf parseFile).
Local Abbreviation deletes := (deletesModule findFileUsage parseFile).


End ProcessFileFacts.

(** ** The decision switch *)

Section SwitchFacts.

Variable findFileUsage : string → Vertexes → gmap string string → gset string.
Variable parseFile : string → string → list string → list ExportItem.
Variable applyTextChanges : string → list TextChange → string.
Variable stripExportKeyword : string → string.
Variable updateExportDeclaration : string → list string → string.
Variable applyCodeFix : FixId → string → string → string.
Variable fuel : nat.

Local Abbreviation analyze :=
  (processFile findFileUsage parseFile applyTextChanges stripExportKeyword
     updateExportDeclaration applyCodeFix fuel).
Local Abbreviation switch := (switchItem stripExportKeyword updateExportDeclaration).
Local Abbreviation usage := (usageOf findFileUsage).
Local Abbreviation exports := (exportsOf parseFile).
Local Abbreviation deletes := (deletesModule findFileUsage parseFile).

Lemma switch_unrecognized file usage acc item :
  recognized item = false → switch file usage acc item = throw (Unexpected item).
Proof. destruct item; done. Qed.

Lemma switch_recognized file usage acc item :
  recognized item = true → ∃ acc', switch file usage acc item = ret acc'.
Proof.
  destruct item; intros Hrec; try done; simpl;
    try (destruct (_ || _)); eauto.
Qed.

Lemma forEach_unrecognized file usage items acc item :
  item ∈ items →
  recognized item = false →
  ∃ item', item' ∈ items ∧ recognized item' = false
           ∧ forEach (switch file usage) items acc = throw (Unexpected item').
Proof.
  intros Hin Hrec. revert acc.
  induction items as [|x items IH]; intros acc.
  { by apply elem_of_nil in Hin. }
  destruct (recognized x) eqn:Hx.
  - destruct (switch_recognized file usage acc x Hx) as [acc' Hacc'].
    apply elem_of_cons in Hin as [->|Hin]; [congruence|].
    destruct (IH Hin acc') as (item' & Hin' & Hrec' & Hthrow).
    exists item'. split; [by apply list_elem_of_further|]. split; [done|].
    simpl. rewrite Hacc'. simpl. done.
  - exists x. split; [apply list_elem_of_here|]. split; [done|].
    simpl. by rewrite switch_unrecognized.
Qed.

Lemma processFile_switch a :
  has (usage a) "*" = false →
  deletes a = false →
  ∀ e, forEach (switch (targetFile a) (usage a)) (exports a) nothing = throw e →
       analyze a = throw e.
Proof.
  intros Hstar Hdel e Hthrow.
  unfold processFile. rewrite Hstar, Hdel, Hthrow. done.
Qed.

(** C9, amended.  An export item outside the recognized variants makes
    the decision switch throw, whatever the usage and whatever was
    collected before.  When [processFile] reaches the switch (the usage
    set has no wildcard and the module is not deleted as a whole) with
    such an item among the exports, [processFile] throws the error of the
    switch, and the run in which the task of that module is the next one
    stops with that error.  When the usage set has the wildcard, or when
    the module is deleted as a whole, [processFile] returns before the
    switch: the item is not examined and nothing is thrown. *)
Theorem unrecognized_item_aborts (a : ProcessArgs) (item : ExportItem) :
  item ∈ exports a →
  recognized item = false →
  (∀ file usage acc, switch file usage acc item = throw (Unexpected item))
  ∧ (has (usage a) "*" = false →
     deletes a = false →
     ∃ item',
       item' ∈ exports a ∧ recognized item' = false
       ∧ analyze a = throw (Unexpected item')
       ∧ ∀ cfg st rest done_ n,
           a = argsFor cfg (targetFile a) st →
           FS.exists_ (fileService st) (targetFile a) = true →
           execute analyze cfg (S n) (targetFile a :: rest) st done_ =
             {| status := Aborted (Unexpected item');
                run_state := st;
                executed := (done_ ++ [targetFile a])%list;
                queue := rest |})
  ∧ (has (usage a) "*" = true → analyze a = ret (OpEdit (currentText a) []))
  ∧ (has (usage a) "*" = false → deletes a = true → analyze a = ret OpDelete).
Proof.
  intros Hin Hrec. split.
  { intros. by apply switch_unrecognized. }
  split; [|split;
    [intros Hstar; unfold processFile; by rewrite Hstar
    |intros Hstar Hdel; unfold processFile; by rewrite Hstar, Hdel]].
  intros Hstar Hdel.
  destruct (forEach_unrecognized (targetFile a) (usage a) (exports a)
              {| changes := []; logs := [] |} item Hin Hrec)
    as (item' & Hin' & Hrec' & Hthrow).
  exists item'. split; [done|]. split; [done|].
  pose proof (processFile_switch a Hstar Hdel _ Hthrow) as Han.
  split; [done|].
  intros cfg st rest done_ n Ha Hex. simpl.
  rewrite callback_alone, Hex. simpl.
  rewrite <- Ha, Han. done.
Qed.

End SwitchFacts.

(** C9, as stated, fails: an unrecognized item among the exports raises
    nothing when [processFile] returns before the switch.  With nothing
    used and deletion of unused files enabled the module is deleted; with
    the wildcard in the usage set the text is returned as it is. *)
Lemma unrecognized_item_can_pass :
  OtherKind 999 None 0
  ∈ exportsOf Demo.parseOdd (Demo.args "m.ts" "enum E {}" true)
  ∧ recognized (OtherKind 999 None 0) = false
  ∧ processFile Demo.findFileUsage Demo.parseOdd spliceTextChanges
      Demo.stripExportKeyword Demo.updateExportDeclaration Demo.applyCodeFix 1
      (Demo.args "m.ts" "enum E {}" true)
    = ret OpDelete
  ∧ processFile (λ _ _ _, {["*"]}) Demo.parseOdd spliceTextChanges
      Demo.stripExportKeyword Demo.updateExportDeclaration Demo.applyCodeFix 1
      (Demo.args "m.ts" "enum E {}" false)
    = ret (OpEdit "enum E {}" []).
Proof.
  split; [apply list_elem_of_here|].
  vm_compute. repeat split; reflexivity.
Qed.

Lemma unrecognized_item_aborts_witness :
  processFile Demo.findFileUsage Demo.parseOdd spliceTextChanges
    Demo.stripExportKeyword Demo.updateExportDeclaration Demo.applyCodeFix 1
    (Demo.args "m.ts" "enum E {}" false)
  = throw (Unexpected (OtherKind 999 None 0)).
Proof.
  destruct (unrecognized_item_aborts Demo.findFileUsage Demo.parseOdd
              spliceTextChanges Demo.stripExportKeyword
              Demo.updateExportDeclaration Demo.applyCodeFix 1
              (Demo.args "m.ts" "enum E {}" false) (OtherKind 999 None 0))
    as (_ & H & _).
  - apply list_elem_of_here.
  - reflexivity.
  - destruct H as (item' & Hin & _ & Hthrow & _).
    + reflexivity.
    + reflexivity.
    + apply list_elem_of_singleton in Hin. rewrite Hin in Hthrow. exact Hthrow.
Defined.

(** ** Skipped exports *)

Section SkipFacts.

Variable findFileUsage : string → Vertexes → gmap string string → gset string.
Variable parseFile : string → string → list string → list ExportItem.
Variable applyTextChanges : string → list TextChange → string.
Variable stripExportKeyword : string → string.
Variable updateExportDeclaration : string → list string → string.
Variable applyCodeFix : FixId → string → string → string.
Variable fuel : nat.

Local Abbreviation analyze :=
  (processFile findFileUsage parseFile applyTextChanges stripExportKeyword
     updateExportDeclaration applyCodeFix fuel).
Local Abbreviation switch := (switchItem stripExportKeyword updateExportDeclaration).
Local Abbreviation usage := (usageOf findFileUsage).
Local Abbreviation exports := (exportsOf parseFile).
Local Abbreviation deletes := (deletesModule findFileUsage parseFile).


(** What the switch collects for an item comes from that item. *)
Lemma switch_source file usage acc item acc' :
  switch file usage acc item = ret acc' →
  acc' = acc
  ∨ (skipped item = false
     ∧ ∃ c ls,
         acc' = push c ls acc
         ∧ item_span item = Some (span c)
         ∧ ∀ l, l ∈ ls →
                position l = item_start item ∧ fileName l = file
                ∧ log_code l ∈ item_codes item).
Proof.
  destruct item; simpl;
    try (destruct skip; simpl; [intros; simplify_eq; by left|]);
    try (intros; simplify_eq; by left);
    try (destruct (has usage _); simpl);
    try (destruct (forallb (has usage) name); simpl);
    try (intros; simplify_eq; by left);
    intros; simplify_eq; right; (split; [done|]);
    eexists _, _; (split; [reflexivity|]); (split; [done|]);
    intros l Hl.
  - apply list_elem_of_singleton in Hl as ->. simpl.
    repeat split. apply list_elem_of_here.
  - apply list_elem_of_singleton in Hl as ->. simpl.
    repeat split. apply list_elem_of_here.
  - apply list_elem_of_singleton in Hl as ->. simpl.
    repeat split. apply list_elem_of_here.
  - apply list_elem_of_singleton in Hl as ->. simpl.
    repeat split. apply list_elem_of_here.
  - apply list_elem_of_singleton in Hl as ->. simpl.
    repeat split. apply list_elem_of_here.
  - apply list_elem_of_fmap in Hl as (it & -> & Hit). simpl.
    apply list_elem_of_filter in Hit as [_ Hit]. done.
  - apply list_elem_of_singleton in Hl as ->. simpl.
    repeat split. apply list_elem_of_here.
Qed.

Lemma forEach_source file usage items :
  ∀ acc acc',
    forEach (switch file usage) items acc = ret acc' →
    (∀ c, c ∈ changes acc' →
          c ∈ changes acc
          ∨ ∃ item, item ∈ items ∧ skipped item = false
                    ∧ item_span item = Some (span c))
    ∧ (∀ l, l ∈ logs acc' →
            l ∈ logs acc
            ∨ ∃ item, item ∈ items ∧ skipped item = false
                      ∧ position l = item_start item ∧ fileName l = file
                      ∧ log_code l ∈ item_codes item).
Proof.
  induction items as [|x items IH]; intros acc acc'; simpl.
  { intros; simplify_eq. split; intros; by left. }
  destruct (switch file usage acc x) as [e|acc1] eqn:Hx; simpl; [done|].
  intros Hrest. destruct (IH _ _ Hrest) as [IHc IHl].
  apply switch_source in Hx as [->|(Hskip & c0 & ls & -> & Hspan & Hls)].
  - split.
    + intros c Hc. destruct (IHc c Hc) as [?|(item & ? & ?)]; [by left|].
      right. exists item. split; [by apply list_elem_of_further|done].
    + intros l Hl. destruct (IHl l Hl) as [?|(item & ? & ?)]; [by left|].
      right. exists item. split; [by apply list_elem_of_further|done].
  - split.
    + intros c Hc. destruct (IHc c Hc) as [Hin|(item & ? & ?)].
      * simpl in Hin. apply elem_of_app in Hin as [?|Hin]; [by left|].
        apply list_elem_of_singleton in Hin as ->.
        right. exists x. split; [apply list_elem_of_here|done].
      * right. exists item. split; [by apply list_elem_of_further|done].
    + intros l Hl. destruct (IHl l Hl) as [Hin|(item & ? & ?)].
      * simpl in Hin. apply elem_of_app in Hin as [?|Hin]; [by left|].
        right. exists x. split; [apply list_elem_of_here|].
        split; [done|]. by apply Hls.
      * right. exists item. split; [by apply list_elem_of_further|done].
Qed.

(** The [removedExports] of an edit are the logs of the switch. *)
Lemma processFile_edit a text removed :
  analyze a = ret (OpEdit text removed) →
  removed = []
  ∨ ∃ acc', forEach (switch (targetFile a) (usage a)) (exports a) nothing
            = ret acc'
            ∧ removed = logs acc'.
Proof.
  unfold processFile.
  destruct (has (usage a) "*"); [intros; simplify_eq; by left|].
  destruct (deletes a); [done|].
  destruct (forEach _ _ _) as [e|acc'] eqn:Hfor; simpl; [done|].
  intros Hres. right. exists acc'. split; [done|].
  destruct (bool_decide (length (changes acc') = 0%nat)); [by simplify_eq|].
  destruct (_ && _); simpl in Hres.
  - destruct (fixLoop _ _ _ _); simpl in Hres; by simplify_eq.
  - by simplify_eq.
Qed.





End SkipFacts.



(** ** Slices of a text *)

Lemma append_nil_l s : EmptyString +:+ s = s.
Proof. reflexivity. Qed.

Lemma append_cons c a b : String c a +:+ b = String c (a +:+ b).
Proof. reflexivity. Qed.

Lemma str_take_nil n : str_take n EmptyString = EmptyString.
Proof. by destruct n. Qed.

Lemma str_drop_nil n : str_drop n EmptyString = EmptyString.
Proof. by destruct n. Qed.

Lemma str_take_add a b s :
  str_take (a + b) s = str_take a s +:+ str_take b (str_drop a s).
Proof.
  revert s. induction a as [|a IH]; intros s; simpl; [done|].
  destruct s as [|c s]; simpl.
  - by rewrite str_take_nil.
  - by rewrite append_cons, IH.
Qed.

Lemma str_drop_add a b s : str_drop (a + b) s = str_drop b (str_drop a s).
Proof.
  revert s. induction a as [|a IH]; intros s; simpl; [done|].
  destruct s as [|c s]; simpl; [by rewrite str_drop_nil|apply IH].
Qed.

Lemma str_take_drop n s : str_take n s +:+ str_drop n s = s.
Proof.
  revert s. induction n as [|n IH]; intros s; simpl; [done|].
  destruct s as [|c s]; simpl; [done|]. by rewrite append_cons, IH.
Qed.

Lemma str_drop_all s : str_drop (String.length s) s = EmptyString.
Proof. induction s as [|c s IH]; simpl; done. Qed.

Lemma str_append_assoc a b c : (a +:+ b) +:+ c = a +:+ (b +:+ c).
Proof.
  induction a as [|x a IH]; [done|]. by rewrite !append_cons, IH.
Qed.

Lemma str_concat_cons x xs : str_concat (x :: xs) = x +:+ str_concat xs.
Proof. reflexivity. Qed.

Lemma str_concat_app xs ys : str_concat (xs ++ ys) = str_concat xs +:+ str_concat ys.
Proof.
  induction xs as [|x xs IH]; [done|].
  rewrite <- app_comm_cons, !str_concat_cons, IH. by rewrite str_append_assoc.
Qed.

(** ** Tiling *)

Lemma tiles_app offset pre rest len :
  tiles offset (pre ++ rest) len →
  tiles (offset + foldr (λ n w, fullWidth n + w) 0 pre)%nat rest len.
Proof.
  revert offset. induction pre as [|n pre IH]; intros offset; simpl.
  - by rewrite Nat.add_0_r.
  - intros [_ Htl]. apply IH in Htl. by rewrite Nat.add_assoc.
Qed.

Lemma tiles_suffix text nodes offset :
  tiles offset nodes (String.length text) →
  str_drop offset text = str_concat (fullText text <$> nodes).
Proof.
  revert offset. induction nodes as [|n nodes IH]; intros offset.
  - simpl. intros ->. apply str_drop_all.
  - intros [Hn Htl]. rewrite fmap_cons, str_concat_cons.
    rewrite <- (IH _ Htl), str_drop_add.
    unfold fullText, str_slice. rewrite Hn.
    symmetry. apply str_take_drop.
Qed.

Lemma tiles_prefix text pre rest offset len :
  tiles offset (pre ++ rest) len →
  str_take (foldr (λ n w, fullWidth n + w) 0 pre)%nat (str_drop offset text)
  = str_concat (fullText text <$> pre).
Proof.
  revert offset. induction pre as [|n pre IH]; intros offset; [done|].
  intros [Hn Htl]. rewrite fmap_cons, str_concat_cons.
  cbn [foldr]. rewrite str_take_add, <- str_drop_add, (IH _ Htl).
  unfold fullText, str_slice. by rewrite Hn.
Qed.

(** ** Removing a whole re-export *)

Lemma visit_fold_found specifier nodes acc :
  acc ≠ [] → foldl (visit specifier) acc nodes = acc.
Proof.
  intros Hacc. induction nodes as [|n nodes IH]; simpl; [done|].
  unfold visit at 2. rewrite bool_decide_eq_true_2; [done|].
  destruct acc; [done|simpl; lia].
Qed.

Lemma visit_fold_none specifier nodes :
  (∀ n, n ∈ nodes → isWholeReexportOf specifier n = false) →
  foldl (visit specifier) [] nodes = [].
Proof.
  induction nodes as [|n nodes IH]; intros Hnone; simpl; [done|].
  unfold visit at 2. simpl.
  rewrite (Hnone n) by apply list_elem_of_here.
  apply IH. intros m Hm. apply Hnone. by apply list_elem_of_further.
Qed.

Lemma visit_fold_first specifier pre node post :
  (∀ n, n ∈ pre → isWholeReexportOf specifier n = false) →
  isWholeReexportOf specifier node = true →
  foldl (visit specifier) [] (pre ++ node :: post)%list = [removal node].
Proof.
  intros Hpre Hnode. rewrite foldl_app, visit_fold_none by done.
  simpl. unfold visit at 2. simpl. rewrite Hnode.
  by apply visit_fold_found.
Qed.

Lemma visit_fold_length specifier nodes :
  (length (foldl (visit specifier) [] nodes) ≤ 1)%nat.
Proof.
  assert (∀ acc, (length acc ≤ 1)%nat →
                 (length (foldl (visit specifier) acc nodes) ≤ 1)%nat) as H.
  { induction nodes as [|n nodes IH]; intros acc Hacc; simpl; [done|].
    apply IH. unfold visit. case_bool_decide; [done|].
    destruct (isWholeReexportOf specifier n); [|done].
    rewrite length_app. simpl. lia. }
  apply H. simpl. lia.
Qed.

Section RemovalFacts.

Variable createSourceFile : string → list Node.
Variable applyTextChanges : string → list TextChange → string.

Lemma removeWholeExportSpecifier_none text specifier :
  (∀ n, n ∈ createSourceFile text → isWholeReexportOf specifier n = false) →
  removeWholeExportSpecifier createSourceFile applyTextChanges text specifier
  = None.
Proof.
  intros Hnone. unfold removeWholeExportSpecifier.
  by rewrite visit_fold_none.
Qed.

Lemma removeWholeExportSpecifier_first text specifier pre node post :
  createSourceFile text = (pre ++ node :: post)%list →
  (∀ n, n ∈ pre → isWholeReexportOf specifier n = false) →
  isWholeReexportOf specifier node = true →
  removeWholeExportSpecifier createSourceFile applyTextChanges text specifier
  = Some {| removed_info := found_info (removal node);
            removed_content :=
              applyTextChanges text [textChange (removal node)] |}.
Proof.
  intros Hnodes Hpre Hnode. unfold removeWholeExportSpecifier.
  rewrite Hnodes, visit_fold_first by done. done.
Qed.

(** When a single change is applied by cutting its span, and the nodes
    tile the text, cutting a node leaves the other nodes. *)
Lemma cut_node text pre node post :
  (∀ c, applyTextChanges text [c] = applyTextChange text c) →
  tiles 0 (pre ++ node :: post)%list (String.length text) →
  text = str_concat (fullText text <$> (pre ++ node :: post)%list)
  ∧ applyTextChanges text [textChange (removal node)]
    = str_concat (fullText text <$> (pre ++ post)%list).
Proof.
  intros Hcut Htiles. split.
  { by rewrite <- (tiles_suffix text _ 0 Htiles). }
  rewrite Hcut. unfold applyTextChange. simpl.
  pose proof (tiles_prefix text pre _ 0 _ Htiles) as Hpre.
  apply tiles_app in Htiles as [Hstart Hpost]. simpl in Hstart, Hpre.
  apply (tiles_suffix text) in Hpost. rewrite Nat.add_0_l in Hpost.
  rewrite Hstart, Hpre, Hpost, fmap_app, str_concat_app. done.
Qed.

(** C10.  [removeWholeExportSpecifier] removes at most one statement per
    call: [visit] records at most one node, and when the children of the
    source file are [pre ++ node :: post], where [node] is the first bare
    whole re-export of [specifier], the result is the text after the one
    change that cuts [node].  When a single change is applied by cutting
    its span and the children tile the text, the returned content is the
    text of all the other children in order, so every later matching
    statement is still in it. *)
Theorem removes_first_match_only text specifier :
  (length (foldl (visit specifier) [] (createSourceFile text)) ≤ 1)%nat
  ∧ ∀ pre node post,
      createSourceFile text = (pre ++ node :: post)%list →
      (∀ n, n ∈ pre → isWholeReexportOf specifier n = false) →
      isWholeReexportOf specifier node = true →
      removeWholeExportSpecifier createSourceFile applyTextChanges text specifier
      = Some {| removed_info := {| info_position := node_start node;
                                   info_code := node_text node |};
                removed_content :=
                  applyTextChanges text
                    [{| newText := EmptyString;
                        span := {| span_start := fullStart node;
                                   span_length := fullWidth node |} |}] |}
      ∧ ((∀ c, applyTextChanges text [c] = applyTextChange text c) →
         tiles 0 (createSourceFile text) (String.length text) →
         text = str_concat (fullText text <$> (pre ++ node :: post)%list)
         ∧ applyTextChanges text
             [{| newText := EmptyString;
                 span := {| span_start := fullStart node;
                            span_length := fullWidth node |} |}]
           = str_concat (fullText text <$> (pre ++ post)%list)).
Proof.
  split; [apply visit_fold_length|].
  intros pre node post Hnodes Hpre Hnode. split.
  - by apply (removeWholeExportSpecifier_first _ _ pre node post).
  - intros Hcut Htiles. rewrite Hnodes in Htiles.
    by apply cut_node.
Qed.

(** C8.  An entry [(file, specifier)] of the deferred list is skipped,
    leaving the whole state as it is, when [file] is no longer in the
    store or when no child of its parsed text is a bare whole re-export
    of [specifier].  Otherwise the first such statement is removed: the
    text of [file] becomes the text after the change that cuts that
    statement, and the removal is notified; when a single change is
    applied by cutting its span and the children tile the text, the new
    text is the text of all the other children. *)
Theorem cleanup_entry st file specifier :
  (FS.exists_ (fileService st) file = false
   ∨ (∀ n, n ∈ createSourceFile (FS.get (fileService st) file) →
           isWholeReexportOf specifier n = false) →
   cleanup createSourceFile applyTextChanges st (file, specifier) = st)
  ∧ ∀ pre node post,
      FS.exists_ (fileService st) file = true →
      createSourceFile (FS.get (fileService st) file) = (pre ++ node :: post)%list →
      (∀ n, n ∈ pre → isWholeReexportOf specifier n = false) →
      isWholeReexportOf specifier node = true →
      let text := FS.get (fileService st) file in
      let text' :=
        applyTextChanges text
          [{| newText := EmptyString;
              span := {| span_start := fullStart node;
                         span_length := fullWidth node |} |}] in
      cleanup createSourceFile applyTextChanges st (file, specifier)
      = track [EvStart file text;
               EvRemoveExport file (node_text node) (node_start node);
               EvEnd file]
          (withFiles (FS.set (fileService st) file text') st)
      ∧ FS.get
          (fileService (cleanup createSourceFile applyTextChanges st (file, specifier)))
          file = text'
      ∧ ((∀ c, applyTextChanges text [c] = applyTextChange text c) →
         tiles 0 (createSourceFile text) (String.length text) →
         text' = str_concat (fullText text <$> (pre ++ post)%list)).
Proof.
  split.
  - intros [Hex|Hnone]; simpl.
    + by rewrite Hex.
    + destruct (negb _); [done|].
      by rewrite removeWholeExportSpecifier_none.
  - intros pre node post Hex Hnodes Hpre Hnode text text'.
    assert (cleanup createSourceFile applyTextChanges st (file, specifier)
            = track [EvStart file text;
                     EvRemoveExport file (node_text node) (node_start node);
                     EvEnd file]
                (withFiles (FS.set (fileService st) file text') st)) as Heq.
    { simpl. rewrite Hex. simpl.
      by rewrite (removeWholeExportSpecifier_first _ _ pre node post). }
    split; [done|]. split.
    + rewrite Heq. simpl. apply get_set_eq.
    + intros Hcut Htiles. unfold text in Htiles. rewrite Hnodes in Htiles.
      by apply cut_node.
Qed.

End RemovalFacts.

Lemma removes_first_match_only_witness :
  removeWholeExportSpecifier Demo.parseReexports spliceTextChanges Demo.twice "./c"
  = Some {| removed_info := {| info_position := 0; info_code := Demo.reexport |};
            removed_content := Demo.reexport |}.
Proof.
  destruct (removes_first_match_only Demo.parseReexports spliceTextChanges
              Demo.twice "./c") as [_ H].
  destruct (H [] (Demo.reexportAt 0) [Demo.reexportAt 20; Demo.endOfFile 40])
    as [Hremoved Hrest].
  - reflexivity.
  - intros n Hn. by apply elem_of_nil in Hn.
  - reflexivity.
  - destruct Hrest as [_ Hcontent].
    + intros c. reflexivity.
    + simpl. repeat split.
    + rewrite Hremoved, Hcontent. reflexivity.
Defined.

Lemma cleanup_entry_witness :
  FS.get
    (fileService
       (cleanup Demo.parseReexports spliceTextChanges Demo.reexporting ("d.ts", "./c")))
    "d.ts"
  = Demo.reexport
  ∧ cleanup Demo.parseReexports spliceTextChanges Demo.reexporting ("gone.ts", "./c")
    = Demo.reexporting.
Proof.
  destruct (cleanup_entry Demo.parseReexports spliceTextChanges Demo.reexporting
              "d.ts" "./c") as [_ H].
  destruct (cleanup_entry Demo.parseReexports spliceTextChanges Demo.reexporting
              "gone.ts" "./c") as [Hskip _].
  split.
  - destruct (H [] (Demo.reexportAt 0) [Demo.reexportAt 20; Demo.endOfFile 40])
      as (_ & Hget & _).
    + reflexivity.
    + reflexivity.
    + intros n Hn. by apply elem_of_nil in Hn.
    + reflexivity.
    + rewrite Hget. reflexivity.
  - apply Hskip. left. reflexivity.
Defined.

(** ** The number of tasks *)

(** C2, as stated, fails: the number of tasks executed can exceed the
    number of modules times the maximum number of exports of a module.  In
    a code base of two modules without exports the product is 0 and the
    task of the module that is not an entrypoint is executed.  In the
    example code base of four modules with at most one export each, five
    tasks are executed: [b.ts] and [c.ts] each lose their export and each
    enqueue [d.ts], which was seeded as well. *)
Lemma more_tasks_than_modules_times_exports :
  (let run := removeUnusedExport Demo.analyze Demo.createSourceFile
                spliceTextChanges Demo.config 10 Demo.plainGraph Demo.plainStore in
   status run = AtFixpoint
   ∧ executed run = ["b.ts"]
   ∧ modulesTimesExports Demo.parseFile Demo.plainGraph Demo.plainStore = 0%nat
   ∧ ¬ (length (executed run)
        ≤ modulesTimesExports Demo.parseFile Demo.plainGraph Demo.plainStore)%nat)
  ∧ (let run := removeUnusedExport Demo.analyze Demo.createSourceFile
                  spliceTextChanges Demo.config 10 Demo.graph Demo.store in
     status run = AtFixpoint
     ∧ executed run = ["b.ts"; "c.ts"; "d.ts"; "d.ts"; "d.ts"]
     ∧ FS.getFileNames (fileService (run_state run))
       = ["a.ts"; "b.ts"; "c.ts"; "d.ts"]
     ∧ modulesTimesExports Demo.parseFile Demo.graph Demo.store = 4%nat
     ∧ ¬ (length (executed run)
          ≤ modulesTimesExports Demo.parseFile Demo.graph Demo.store)%nat).
Proof. vm_compute. repeat split; try reflexivity; lia. Qed.

Lemma applyResult_enqueues cfg file vertex result st :
  (applyResult cfg file vertex result st).2 ≠ [] →
  recursive cfg = true
  ∧ is_Some vertex
  ∧ ((result = OpDelete ∧ file ∉ entrypoints cfg)
     ∨ ∃ text removed, result = OpEdit text removed ∧ removed ≠ []).
Proof.
  destruct result as [|text removed]; simpl.
  - destruct (arr_includes (entrypoints cfg) file) eqn:E; simpl; [done|].
    apply arr_includes_false in E.
    destruct vertex; simpl; [|done].
    destruct (recursive cfg); [|done]. eauto.
  - destruct vertex; [|done].
    destruct removed; simpl; [done|].
    destruct (recursive cfg); [|done].
    intros _. split; [done|]. split; [eauto|]. right. eauto.
Qed.

Section Termination.

Variable fn : ProcessArgs → Outcome Result.
Variable cfg : Config.
Variable exportCount : string → nat.
Variable d : nat.

(** An edit leaves the module with no more exports than it had, and with
    fewer when it reports removed exports. *)
Hypothesis edit_shrinks : ∀ a text removed,
  fn a = ret (OpEdit text removed) →
  (exportCount text ≤ exportCount (currentText a))%nat
  ∧ (removed ≠ [] → (exportCount text < exportCount (currentText a))%nat).

Local Abbreviation work := (remainingWork exportCount).

Lemma work_cons n f (fs : Store) :
  work ((n, f) :: fs) = (S (exportCount (content f)) + work fs)%nat.
Proof. reflexivity. Qed.

Lemma work_delete_le (fs : Store) file : (work (FS.delete fs file) ≤ work fs)%nat.
Proof.
  unfold FS.delete. induction fs as [|[n f] fs IH]; [done|].
  rewrite filter_cons. case_decide; rewrite ?work_cons; lia.
Qed.

Lemma work_delete_lt (fs : Store) file :
  FS.exists_ fs file = true → (S (work (FS.delete fs file)) ≤ work fs)%nat.
Proof.
  unfold FS.delete, FS.exists_.
  induction fs as [|[n f] fs IH]; [done|].
  rewrite filter_cons, work_cons. simpl.
  destruct (bool_decide (n = file)) eqn:E.
  - apply bool_decide_eq_true_1 in E. subst n. intros _.
    rewrite decide_False by (intros H; by apply H).
    pose proof (work_delete_le fs file) as Hle.
    unfold FS.delete in Hle. lia.
  - apply bool_decide_eq_false_1 in E. intros Hex.
    rewrite decide_True by done. rewrite work_cons. apply IH in Hex. lia.
Qed.

Lemma work_set (fs : Store) file f text :
  FS.find fs file = Some f →
  (work (FS.set fs file text) + exportCount (content f)
   = work fs + exportCount text)%nat.
Proof.
  induction fs as [|[n g] fs IH]; [done|].
  cbn [FS.find FS.set].
  destruct (bool_decide (n = file)) eqn:E; rewrite !work_cons.
  - intros [= ->]. simpl. lia.
  - intros Hf. apply IH in Hf. lia.
Qed.

Lemma deleteVertex_importsAtMost file g :
  importsAtMost d g → importsAtMost d (deleteVertex file g).
Proof.
  unfold importsAtMost, deleteVertex. intros Hg f v Hv.
  rewrite lookup_fmap in Hv.
  destruct (delete file g !! f) as [v0|] eqn:Hv0; simpl in Hv; [|done].
  injection Hv as <-.
  assert (g !! f = Some v0) as Hgf.
  { destruct (decide (file = f)) as [->|Hne].
    - by rewrite lookup_delete_eq in Hv0.
    - by rewrite lookup_delete_ne in Hv0. }
  specialize (Hg f v0 Hgf). simpl in Hg |- *.
  pose proof (length_filter (λ x, x ≠ file) (to v0)). lia.
Qed.

Lemma dependents_length vertex : (length (dependents cfg vertex) ≤ length (to vertex))%nat.
Proof. unfold dependents. apply length_filter. Qed.

(** A task pays for what it enqueues. *)
Lemma callback_pays file st st' added :
  importsAtMost d (dependencyGraph st) →
  callback fn cfg alone file st = inr (st', added) →
  (length added + d * work (fileService st') ≤ d * work (fileService st))%nat
  ∧ importsAtMost d (dependencyGraph st').
Proof.
  intros Hg. rewrite callback_alone. unfold ret, bind.
  destruct (FS.exists_ (fileService st) file) eqn:Hex; simpl.
  2:{ intros ?; simplify_eq. simpl. split; [lia|done]. }
  destruct (fn (argsFor cfg file st)) as [e|result] eqn:Hfn; simpl; [done|].
  assert (∀ v, dependencyGraph st !! file = Some v → (length (to v) ≤ d)%nat)
    as Hv by (intros v Hv; exact (Hg file v Hv)).
  destruct result as [|text removed]; simpl.
  - destruct (arr_includes (entrypoints cfg) file); simpl.
    { intros ?; simplify_eq. simpl. split; [lia|done]. }
    pose proof (work_delete_lt (fileService st) file Hex) as Hlt.
    destruct (dependencyGraph st !! file) as [v|] eqn:Hgv; simpl.
    + intros ?; simplify_eq. simpl. split.
      * specialize (Hv v eq_refl).
        pose proof (dependents_length v).
        assert (length (if recursive cfg then dependents cfg v else []) ≤ d)%nat
          by (destruct (recursive cfg); simpl; lia).
        nia.
      * by apply deleteVertex_importsAtMost.
    + intros ?; simplify_eq. simpl. split; [nia|done].
  - intros ?; simplify_eq. simpl. split; [|done].
    destruct (edit_shrinks _ _ _ Hfn) as [Hle Hlt].
    unfold FS.exists_ in Hex.
    destruct (FS.find (fileService st) file) as [f|] eqn:Hfind; [|done].
    pose proof (work_set (fileService st) file f text Hfind) as Hset.
    assert (currentText (argsFor cfg file st) = content f) as Hcur.
    { unfold currentText, argsFor. simpl. rewrite eject_get.
      unfold FS.get. by rewrite Hfind. }
    rewrite Hcur in Hle, Hlt.
    destruct (dependencyGraph st !! file) as [v|] eqn:Hgv; simpl; [|nia].
    destruct removed as [|r removed]; simpl; [nia|].
    specialize (Hv v eq_refl). pose proof (dependents_length v).
    assert (exportCount text < exportCount (content f))%nat by (by apply Hlt).
    destruct (recursive cfg); simpl; nia.
Qed.

Lemma execute_bounded fuel :
  ∀ queue st done_,
    importsAtMost d (dependencyGraph st) →
    (length queue + d * work (fileService st) ≤ fuel)%nat →
    status (execute fn cfg fuel queue st done_) ≠ Unfinished
    ∧ (length (executed (execute fn cfg fuel queue st done_))
       ≤ length done_ + length queue + d * work (fileService st))%nat.
Proof.
  induction fuel as [|fuel IH]; intros queue st done_ Hg Hfuel.
  - destruct queue; simpl in *; [split; [done|lia]|lia].
  - destruct queue as [|file rest]; simpl; [split; [done|lia]|].
    destruct (callback fn cfg alone file st) as [e|[st' added]] eqn:Hcb; simpl.
    + split; [done|]. rewrite length_app. simpl. lia.
    + destruct (callback_pays file st st' added Hg Hcb) as [Hpay Hg'].
      destruct (IH (rest ++ added)%list st' (done_ ++ [file])%list Hg') as [Hst Hlen].
      { rewrite length_app. simpl in Hfuel. lia. }
      split; [done|].
      rewrite !length_app in Hlen. simpl in Hlen. lia.
Qed.

End Termination.

Lemma seedFile_work exportCount cfg acc file :
  (remainingWork exportCount (fileService (seed_state (seedFile cfg acc file)))
   ≤ remainingWork exportCount (fileService (seed_state acc)))%nat.
Proof.
  unfold seedFile.
  destruct (arr_includes (entrypoints cfg) file); [done|].
  destruct (reachableDepth _); [done|].
  destruct (_ && _); simpl; [|done].
  apply work_delete_le.
Qed.

Lemma seedFile_seeds cfg acc file :
  (length (initialFiles (seedFile cfg acc file)) ≤ S (length (initialFiles acc)))%nat.
Proof.
  unfold seedFile.
  destruct (arr_includes (entrypoints cfg) file); [lia|].
  destruct (reachableDepth _); simpl; [rewrite length_app; simpl; lia|].
  destruct (_ && _); simpl; [lia|rewrite length_app; simpl; lia].
Qed.

Lemma seed_fold_bounds exportCount cfg names :
  ∀ acc,
    (remainingWork exportCount
       (fileService (seed_state (foldl (seedFile cfg) acc names)))
     ≤ remainingWork exportCount (fileService (seed_state acc)))%nat
    ∧ (length (initialFiles (foldl (seedFile cfg) acc names))
       ≤ length (initialFiles acc) + length names)%nat.
Proof.
  induction names as [|file names IH]; intros acc; simpl; [lia|].
  destruct (IH (seedFile cfg acc file)) as [Hw Hl].
  pose proof (seedFile_work exportCount cfg acc file).
  pose proof (seedFile_seeds cfg acc file). lia.
Qed.

(** C2, amended.  A task enqueues further tasks only when propagation is
    enabled and its module has a vertex, after a result that deletes the
    module (which is then not an entrypoint) or after an edit whose list of
    removed exports is not empty.  When every edit leaves its module with
    no more exports than before, and with fewer when it reports removed
    exports, the sequential task loop stops, at its fixpoint or on an error
    of the analyzer, and the number of tasks executed is at most the number
    of modules plus [d] times the sum over the modules of one plus their
    number of exports, where no module imports more than [d] modules. *)
Theorem tasks_bounded fn createSourceFile applyTextChanges cfg
    (exportCount : string → nat) (d fuel : nat) graph (fs : Store) :
  (∀ a text removed,
      fn a = ret (OpEdit text removed) →
      (exportCount text ≤ exportCount (currentText a))%nat
      ∧ (removed ≠ [] → (exportCount text < exportCount (currentText a))%nat)) →
  importsAtMost d graph →
  (length fs + d * remainingWork exportCount fs ≤ fuel)%nat →
  let run := removeUnusedExport fn createSourceFile applyTextChanges cfg fuel graph fs in
  status run ≠ Unfinished
  ∧ (length (executed run) ≤ length fs + d * remainingWork exportCount fs)%nat
  ∧ ∀ file vertex result st,
      (applyResult cfg file vertex result st).2 ≠ [] →
      recursive cfg = true
      ∧ is_Some vertex
      ∧ ((result = OpDelete ∧ file ∉ entrypoints cfg)
         ∨ ∃ text removed, result = OpEdit text removed ∧ removed ≠ []).
Proof.
  intros Hshrinks Hgraph Hfuel run.
  assert (status run ≠ Unfinished
          ∧ (length (executed run) ≤ length fs + d * remainingWork exportCount fs)%nat)
    as Hrun.
  { unfold run, removeUnusedExport.
    set (st0 := {| fileService := fs; dependencyGraph := graph;
                   wholeReexportsToBeDeleted := []; editTracker := [] |}).
    set (acc0 := {| filesOutsideOfGraphHasSkipComment := false;
                    initialFiles := []; seed_state := st0 |}).
    destruct (seed_fold_bounds exportCount cfg (FS.getFileNames fs) acc0)
      as [Hwork Hseeds].
    destruct (seed_fold_graph cfg (FS.getFileNames fs) acc0) as [Hg _].
    change (foldl (seedFile cfg) acc0 (FS.getFileNames fs))
      with (seed cfg st0) in Hwork, Hseeds, Hg.
    simpl in Hwork, Hseeds, Hg.
    unfold FS.getFileNames in Hseeds. rewrite length_fmap in Hseeds.
    set (initial := (sortByDepth (initialFiles (seed cfg st0))).*1).
    assert (length initial ≤ length fs)%nat as Hinitial.
    { unfold initial. rewrite length_fmap, sortByDepth_length. lia. }
    destruct (execute_bounded fn cfg exportCount d Hshrinks fuel initial
                (seed_state (seed cfg st0)) [])
      as [Hstatus Hlen].
    { by rewrite Hg. }
    { nia. }
    simpl in Hlen.
    destruct (status (execute fn cfg fuel initial (seed_state (seed cfg st0)) []))
      eqn:Est; simpl.
    - split; [done|]. nia.
    - rewrite Est. split; [done|]. nia.
    - done. }
  destruct Hrun as [Hstatus Hlen]. split; [done|]. split; [done|].
  intros file vertex result st Hadded.
  by apply (applyResult_enqueues cfg file vertex result st).
Qed.

Lemma demo_analyze_shrinks a text removed :
  Demo.analyze a = ret (OpEdit text removed) →
  (Demo.exportCount text ≤ Demo.exportCount (currentText a))%nat
  ∧ (removed ≠ [] → (Demo.exportCount text < Demo.exportCount (currentText a))%nat).
Proof.
  unfold Demo.analyze, processFile, deletesModule, usageOf, exportsOf, nothing.
  unfold Demo.findFileUsage, has.
  rewrite bool_decide_eq_false_2 by apply not_elem_of_empty.
  rewrite size_empty, bool_decide_eq_true_2 by done.
  unfold Demo.parseFile at 1 2.
  destruct (bool_decide (currentText a = Demo.exportX)) eqn:E.
  - apply bool_decide_eq_true_1 in E. rewrite E.
    destruct (deleteUnusedFile a); [done|]. 
    cbn [andb existsb skipped negb forEach bind ret switchItem orb forallb nothing].
    unfold has. rewrite bool_decide_eq_false_2 by apply not_elem_of_empty.
    cbn [andb bind ret push changes logs app length].
    rewrite bool_decide_eq_false_2 by done.
    rewrite bool_decide_eq_true_2 by (simpl; lia).
    assert (spliceTextChanges Demo.exportX
              [cut {| code := Demo.exportX;
                      change_span := {| span_start := 0; span_length := 19 |};
                      isUnnamedDefaultExport := false |}] = EmptyString) as ->
      by reflexivity.
    destruct (enableCodeFix a);
      cbn [andb bind ret fixLoop]; unfold Demo.applyCodeFix;
      rewrite ?bool_decide_eq_true_2 by done;
      cbn [bind ret]; rewrite get_set_eq;
      intros ?; simplify_eq;
      (split; [vm_compute; lia | intros _; vm_compute; lia]).
  - destruct (deleteUnusedFile a); [done|]. simpl.
    intros ?; simplify_eq. split; [done|]. done.
Qed.

Lemma demo_imports : importsAtMost 2 Demo.graph.
Proof.
  unfold importsAtMost. apply (bool_decide_unpack _). vm_compute. exact I.
Qed.

Lemma tasks_bounded_witness :
  status (removeUnusedExport Demo.analyze Demo.createSourceFile spliceTextChanges
            Demo.config 18 Demo.graph Demo.store) ≠ Unfinished
  ∧ (length
       (executed
          (removeUnusedExport Demo.analyze Demo.createSourceFile spliceTextChanges
             Demo.config 18 Demo.graph Demo.store)) ≤ 18)%nat.
Proof.
  destruct (tasks_bounded Demo.analyze Demo.createSourceFile spliceTextChanges
              Demo.config Demo.exportCount 2 18 Demo.graph Demo.store)
    as (Hstatus & Hlength & _).
  - exact demo_analyze_shrinks.
  - exact demo_imports.
  - vm_compute. lia.
  - split; [exact Hstatus | exact Hlength].
Defined.

(** * Further properties of the analyzer *)

Lemma forallb_false_filter {A} (f : A → bool) (l : list A) :
  forallb f l = false → filter (λ x, f x = false) l ≠ [].
Proof.
  induction l as [|x l IH]; simpl; [done|].
  intros Hall. rewrite filter_cons. case_decide as Hx; [done|].
  apply IH. destruct (f x); [exact Hall|done].
Qed.

Section AnalyzerFacts.

Variable findFileUsage : string → Vertexes → gmap string string → gset string.
Variable parseFile : string → string → list string → list ExportItem.
Variable applyTextChanges : string → list TextChange → string.
Variable stripExportKeyword : string → string.
Variable updateExportDeclaration : string → list string → string.
Variable applyCodeFix : FixId → string → string → string.
Variable fuel : nat.

Local Abbreviation analyze :=
  (processFile findFileUsage parseFile applyTextChanges stripExportKeyword
     updateExportDeclaration applyCodeFix fuel).
Local Abbreviation switch := (switchItem stripExportKeyword updateExportDeclaration).
Local Abbreviation usage := (usageOf findFileUsage).
Local Abbreviation exports := (exportsOf parseFile).
Local Abbreviation deletes := (deletesModule findFileUsage parseFile).

Lemma deletes_spec a :
  deletes a = true ↔
  usage a = ∅ ∧ deleteUnusedFile a = true
  ∧ ∀ item, item ∈ exports a → skipped item = false.
Proof.
  unfold deletesModule. rewrite !andb_true_iff, bool_decide_eq_true.
  rewrite negb_true_iff, size_empty_iff. unfold_leibniz.
  assert (existsb skipped (exports a) = false
          ↔ ∀ item, item ∈ exports a → skipped item = false) as ->; [|tauto].
  split.
  - intros Hnone item Hin. destruct (skipped item) eqn:Hs; [|done].
    rewrite <- Hnone. symmetry. apply existsb_exists.
    exists item. split; [by apply list_elem_of_In|done].
  - intros Hall. destruct (existsb skipped (exports a)) eqn:He; [|done].
    apply existsb_exists in He as (item & Hin & Hs).
    apply list_elem_of_In in Hin. by rewrite (Hall item Hin) in Hs.
Qed.

Lemma processFile_not_deleting a :
  deletes a = false → analyze a ≠ ret OpDelete.
Proof.
  intros Hdel. unfold processFile.
  destruct (has (usage a) "*"); [done|]. rewrite Hdel.
  destruct (forEach _ _ _) as [e|acc']; simpl; [done|].
  destruct (bool_decide _); [done|].
  destruct (_ && _); simpl; [|done].
  destruct (fixLoop _ _ _ _); done.
Qed.

(** X1.  [processFile] returns [Delete] exactly when the usage set is
    empty, deletion of unused files is enabled and no export item is
    skipped. *)
Theorem delete_exactly_when_unused (a : ProcessArgs) :
  analyze a = ret OpDelete ↔
  usage a = ∅ ∧ deleteUnusedFile a = true
  ∧ ∀ item, item ∈ exports a → skipped item = false.
Proof.
  rewrite <- deletes_spec. split.
  - intros Hres. destruct (deletes a) eqn:Hdel; [done|].
    by apply processFile_not_deleting in Hdel.
  - intros Hdel. pose proof Hdel as Hspec.
    apply deletes_spec in Hspec as (Hempty & _).
    unfold processFile, has. rewrite Hempty.
    rewrite bool_decide_eq_false_2 by apply not_elem_of_empty.
    fold (usage a). rewrite <- Hempty, Hdel. done.
Qed.

(** What the switch collects for an item is nothing, or a change together
    with at least one log entry. *)
Lemma switch_balanced file usage acc item acc' :
  switch file usage acc item = ret acc' →
  acc' = acc ∨ (changes acc' ≠ [] ∧ logs acc' ≠ []).
Proof.
  destruct item; simpl;
    try (destruct skip; simpl; [intros; simplify_eq; by left|]);
    try (intros; simplify_eq; by left);
    try (destruct (has usage _); simpl);
    try (destruct (forallb (has usage) name) eqn:Hall; simpl);
    try (intros; simplify_eq; by left);
    intros; simplify_eq; right; simpl;
    (split; [by destruct (changes acc)|]);
    try (by destruct (logs acc)).
  apply forallb_false_filter in Hall.
  destruct (logs acc); simpl; [|done].
  destruct (filter _ name); done.
Qed.

Lemma forEach_balanced file usage items :
  ∀ acc acc',
    forEach (switch file usage) items acc = ret acc' →
    (changes acc = [] ↔ logs acc = []) →
    (changes acc' = [] ↔ logs acc' = []).
Proof.
  induction items as [|x items IH]; intros acc acc'; simpl.
  { intros; by simplify_eq. }
  destruct (switch file usage acc x) as [e|acc1] eqn:Hx; simpl; [done|].
  intros Hrest Hacc. apply (IH _ _ Hrest).
  apply switch_balanced in Hx as [->|[Hc Hl]]; [done|]. split; done.
Qed.

(** X2.  An edit that reports no removed export returns the current text
    of the module: [processFile] changes the text only together with a
    non-empty [removedExports]. *)
Theorem edit_without_removal_keeps_text (a : ProcessArgs) (text : string) :
  analyze a = ret (OpEdit text []) → text = currentText a.
Proof.
  unfold processFile.
  destruct (has (usage a) "*"); [intros; by simplify_eq|].
  destruct (deletes a); [done|].
  destruct (forEach _ _ _) as [e|acc'] eqn:Hfor; simpl; [done|].
  apply forEach_balanced in Hfor; [|done].
  destruct (bool_decide (length (changes acc') = 0%nat)) eqn:Hlen.
  { intros; by simplify_eq. }
  apply bool_decide_eq_false_1 in Hlen.
  assert (logs acc' ≠ []) as Hlogs.
  { intros Hl. apply Hfor in Hl. by rewrite Hl in Hlen. }
  destruct (_ && _); simpl.
  - destruct (fixLoop _ _ _ _); simpl; intros; by simplify_eq.
  - intros; by simplify_eq.
Qed.

Lemma switch_used file usage acc item :
  recognized item = true →
  skipped item = true ∨ (∀ n, n ∈ item_symbols item → n ∈ usage) →
  switch file usage acc item = ret acc.
Proof.
  assert (∀ names : list string,
             (∀ n, n ∈ names → n ∈ usage) → forallb (has usage) names = true)
    as Hnames.
  { intros names Hall. apply forallb_forall. intros n Hn.
    apply bool_decide_eq_true_2, Hall. by apply list_elem_of_In. }
  assert (∀ n : string, (∀ m, m ∈ [n] → m ∈ usage) → has usage n = true)
    as Hname.
  { intros n Hall. apply bool_decide_eq_true_2, Hall, list_elem_of_here. }
  destruct item; simpl; intros Hrec [Hs|Hused]; try done;
    try (rewrite Hs; done);
    try (rewrite (Hnames _ Hused)); try (rewrite (Hname _ Hused));
    by rewrite ?orb_true_r.
Qed.

Lemma forEach_used file usage items acc :
  (∀ item, item ∈ items →
           recognized item = true
           ∧ (skipped item = true ∨ ∀ n, n ∈ item_symbols item → n ∈ usage)) →
  forEach (switch file usage) items acc = ret acc.
Proof.
  induction items as [|x items IH]; intros Hall; simpl; [done|].
  destruct (Hall x) as [Hrec Hused]; [apply list_elem_of_here|].
  rewrite switch_used by done. simpl.
  apply IH. intros item Hin. apply Hall. by apply list_elem_of_further.
Qed.

(** X3.  When every export item is a recognized variant and is skipped
    or has all its symbols in the usage set, [processFile] leaves the text
    alone: it returns [Delete] or an edit with the current text and an
    empty [removedExports]. *)
Theorem used_exports_are_kept (a : ProcessArgs) :
  (∀ item, item ∈ exports a →
           recognized item = true
           ∧ (skipped item = true ∨ ∀ n, n ∈ item_symbols item → n ∈ usage a)) →
  analyze a = ret OpDelete ∨ analyze a = ret (OpEdit (currentText a) []).
Proof.
  intros Hall. unfold processFile.
  destruct (has (usage a) "*"); [by right|].
  destruct (deletes a); [by left|]. right.
  rewrite forEach_used by done. done.
Qed.

(** X4.  With the code fix disabled, [processFile] does not depend on the
    code-fix collaborator nor on the number of iterations allowed to its
    loop: the language service is not consulted and the loop is not
    entered, whatever the switch collected. *)
Theorem code_fix_disabled (a : ProcessArgs) :
  enableCodeFix a = false →
  ∀ applyCodeFix' fuel',
    analyze a
    = processFile findFileUsage parseFile applyTextChanges stripExportKeyword
        updateExportDeclaration applyCodeFix' fuel' a.
Proof.
  intros Hoff applyCodeFix' fuel'. unfold processFile. rewrite Hoff. done.
Qed.

(** X6.  Every entry of the [removedExports] of an edit returned by
    [processFile] carries the name of the target file, so every call the
    task of a file makes to the [editTracker] is about that file. *)
Theorem tracker_calls_name_the_task_file cfg file st st' added :
  callback analyze cfg alone file st = ret (st', added) →
  ∃ evs, editTracker st' = (editTracker st ++ evs)%list
         ∧ ∀ ev, ev ∈ evs → event_file ev = file.
Proof.
  rewrite callback_alone. unfold ret, bind.
  destruct (FS.exists_ (fileService st) file); simpl.
  2:{ intros ?; simplify_eq. exists []. rewrite app_nil_r.
      split; [done|]. intros ev Hev. by apply elem_of_nil in Hev. }
  destruct (analyze (argsFor cfg file st)) as [e|result] eqn:Hres; [done|].
  destruct result as [|text removed]; simpl.
  - destruct (arr_includes (entrypoints cfg) file); simpl.
    + intros ?; simplify_eq. simpl.
      eexists. rewrite <- app_assoc. split; [reflexivity|].
      intros ev Hev. simpl in Hev. set_solver.
    + destruct (dependencyGraph st !! file); intros ?; simplify_eq; simpl;
        (eexists; rewrite <- app_assoc; split; [reflexivity|]);
        intros ev Hev; simpl in Hev; set_solver.
  - intros ?; simplify_eq. simpl. eexists. split; [reflexivity|].
    intros ev Hev. apply elem_of_cons in Hev as [->|Hev]; [done|].
    apply elem_of_app in Hev as [Hev|Hev].
    + apply list_elem_of_fmap in Hev as (l & -> & Hl). simpl.
      apply processFile_edit in Hres as [->|(acc' & Hfor & ->)].
      { by apply elem_of_nil in Hl. }
      destruct (forEach_source _ _ _ _ _ _ _ Hfor) as [_ Hls].
      destruct (Hls l Hl) as [Hnil|(item & _ & _ & _ & Hname & _)].
      { by apply elem_of_nil in Hnil. }
      done.
    + apply list_elem_of_singleton in Hev as ->. done.
Qed.

End AnalyzerFacts.

(** X5.  The code-fix loop returns only a text that the fix leaves
    unchanged, reached by applying the fix fewer times than the iterations
    allowed, and allowing more iterations does not change what it returns;
    it returns whenever some iterate of the fix within the allowance is
    left unchanged by the fix. *)
Theorem fix_loop_returns_fixpoint
    (applyCodeFix : FixId → string → string → string) (file : string) :
  let fix_ := applyCodeFix fixIdDelete file in
  (∀ fuel text text',
      fixLoop applyCodeFix fuel file text = ret text' →
      fix_ text' = text'
      ∧ (∃ n, (n < fuel)%nat ∧ text' = Nat.iter n fix_ text)
      ∧ ∀ more, fixLoop applyCodeFix (fuel + more) file text = ret text')
  ∧ (∀ n text,
        fix_ (Nat.iter n fix_ text) = Nat.iter n fix_ text →
        ∃ text', fixLoop applyCodeFix (S n) file text = ret text').
Proof.
  intros fix_. split.
  - induction fuel as [|fuel IH]; intros text text'; simpl; [done|].
    fold fix_. case_bool_decide as Hfix.
    + intros ?; simplify_eq. split; [done|]. split.
      * exists 0%nat. split; [lia|done].
      * intros more. cbn [Nat.add fixLoop]. by rewrite ?bool_decide_eq_true_2.
    + intros Hrest. destruct (IH _ _ Hrest) as (Hfixed & (n & Hn & Hiter) & Hmore).
      split; [done|]. split.
      * exists (S n). split; [lia|]. by rewrite Nat.iter_succ_r.
      * intros more. cbn [Nat.add fixLoop].
        rewrite ?bool_decide_eq_false_2 by done. apply Hmore.
  - induction n as [|n IH]; intros text Hfix.
    + simpl in *. fold fix_. rewrite bool_decide_eq_true_2 by done. eauto.
    + cbn [fixLoop]. fold fix_. case_bool_decide; [eauto|].
      apply IH. by rewrite <- !Nat.iter_succ_r.
Qed.

(** * Further properties of seeding *)

Lemma seed_fold_plain cfg names :
  cfg_deleteUnusedFile cfg = false →
  ∀ acc,
    seed_state (foldl (seedFile cfg) acc names) = seed_state acc
    ∧ (initialFiles (foldl (seedFile cfg) acc names)).*1
      = ((initialFiles acc).*1
         ++ filter (λ f, f ∉ entrypoints cfg) names)%list.
Proof.
  intros Hoff. induction names as [|file names IH]; intros acc; simpl.
  { by rewrite app_nil_r. }
  destruct (IH (seedFile cfg acc file)) as [-> ->].
  rewrite filter_cons. unfold seedFile.
  destruct (arr_includes (entrypoints cfg) file) eqn:E.
  - apply arr_includes_true in E. rewrite decide_False by (intros H; by apply H).
    done.
  - apply arr_includes_false in E. rewrite decide_True by done.
    rewrite Hoff. simpl.
    destruct (reachableDepth _); simpl; rewrite fmap_app, <- app_assoc; done.
Qed.

Lemma seed_plain_state cfg st :
  cfg_deleteUnusedFile cfg = false → seed_state (seed cfg st) = st.
Proof.
  intros Hoff. unfold seed.
  by destruct (seed_fold_plain cfg (FS.getFileNames (fileService st)) Hoff
                 {| filesOutsideOfGraphHasSkipComment := false;
                    initialFiles := []; seed_state := st |}) as [-> _].
Qed.

(** X7.  When deletion of unused files is disabled, seeding changes
    nothing (no file is deleted, nothing is notified) and seeds one task
    for every file of the store that is not an entrypoint, in the order of
    enumeration. *)
Theorem seeding_without_deletion cfg st :
  cfg_deleteUnusedFile cfg = false →
  seed_state (seed cfg st) = st
  ∧ (initialFiles (seed cfg st)).*1
    = filter (λ f, f ∉ entrypoints cfg) (FS.getFileNames (fileService st)).
Proof.
  intros Hoff. unfold seed.
  destruct (seed_fold_plain cfg (FS.getFileNames (fileService st)) Hoff
              {| filesOutsideOfGraphHasSkipComment := false;
                 initialFiles := []; seed_state := st |}) as [-> ->].
  done.
Qed.

Lemma seedFile_initial_mono cfg acc file x :
  x ∈ initialFiles acc → x ∈ initialFiles (seedFile cfg acc file).
Proof.
  intros Hx. unfold seedFile.
  destruct (arr_includes (entrypoints cfg) file); [done|].
  destruct (reachableDepth _); simpl; [set_solver|].
  destruct (_ && _); simpl; set_solver.
Qed.

Lemma seed_fold_initial_mono cfg names acc x :
  x ∈ initialFiles acc → x ∈ initialFiles (foldl (seedFile cfg) acc names).
Proof.
  revert acc. induction names as [|file names IH]; intros acc Hx; [done|].
  simpl. by apply IH, seedFile_initial_mono.
Qed.

Lemma seed_fold_reachable cfg f d names :
  ∀ acc,
    reachableDepth (dependencyGraph (seed_state acc) !! f) = Some d →
    FS.find (fileService (seed_state (foldl (seedFile cfg) acc names))) f
    = FS.find (fileService (seed_state acc)) f
    ∧ (f ∈ names → f ∉ entrypoints cfg →
       (f, d) ∈ initialFiles (foldl (seedFile cfg) acc names)).
Proof.
  induction names as [|file names IH]; intros acc Hd; simpl.
  { split; [done|]. intros Hin. by apply elem_of_nil in Hin. }
  destruct (seedFile_graph cfg acc file) as [Hg _].
  destruct (IH (seedFile cfg acc file)) as [Hfind Hseeded]; [by rewrite Hg|].
  split.
  - rewrite Hfind. destruct (decide (file = f)) as [->|Hne].
    + unfold seedFile. destruct (arr_includes _ _); [done|]. by rewrite Hd.
    + by apply seedFile_find.
  - intros Hin Hentry. apply elem_of_cons in Hin as [<-|Hin]; [|by apply Hseeded].
    apply seed_fold_initial_mono. unfold seedFile.
    apply arr_includes_false in Hentry. rewrite Hentry, Hd. simpl.
    set_solver.
Qed.

(** X8.  A file whose vertex has a finite depth is never deleted by
    seeding, whatever the configuration, and when it is enumerated and is
    not an entrypoint a task is seeded for it with that depth. *)
Theorem seeding_keeps_reachable cfg st f d :
  reachableDepth (dependencyGraph st !! f) = Some d →
  FS.find (fileService (seed_state (seed cfg st))) f = FS.find (fileService st) f
  ∧ (f ∈ FS.getFileNames (fileService st) → f ∉ entrypoints cfg →
     (f, d) ∈ initialFiles (seed cfg st)).
Proof.
  intros Hd. unfold seed.
  by apply (seed_fold_reachable cfg f d).
Qed.

Lemma prefix_append s t : String.prefix s (s +:+ t) = true.
Proof.
  induction s as [|a s IH]; [by destruct t|].
  rewrite append_cons. simpl.
  destruct (Ascii.ascii_dec a a); [apply IH|done].
Qed.

Lemma includes_prefix s sub : String.prefix sub s = true → includes s sub = true.
Proof. intros H. destruct s; cbn [includes]; by rewrite H. Qed.

Lemma includes_append pre sub post : includes (pre +:+ sub +:+ post) sub = true.
Proof.
  induction pre as [|a pre IH].
  - rewrite append_nil_l. apply includes_prefix, prefix_append.
  - rewrite append_cons. cbn [includes].
    destruct (String.prefix sub _); [done|apply IH].
Qed.

Lemma seed_fold_marked cfg f names :
  ∀ acc,
    includes (FS.get (fileService (seed_state acc)) f) IGNORE_COMMENT = true →
    FS.find (fileService (seed_state (foldl (seedFile cfg) acc names))) f
    = FS.find (fileService (seed_state acc)) f.
Proof.
  induction names as [|file names IH]; intros acc Hmark; [done|]. simpl.
  assert (FS.find (fileService (seed_state (seedFile cfg acc file))) f
          = FS.find (fileService (seed_state acc)) f) as Hstep.
  { destruct (decide (file = f)) as [->|Hne]; [|by apply seedFile_find].
    unfold seedFile. destruct (arr_includes _ _); [done|].
    destruct (reachableDepth _); [done|].
    rewrite Hmark, andb_false_r. done. }
  rewrite IH, Hstep; [done|].
  unfold FS.get. rewrite Hstep. apply Hmark.
Qed.

(** X10.  A file whose text contains the marker [ts-remove-unused-skip]
    anywhere is never deleted by seeding, wherever it is enumerated and
    whatever the graph and the configuration. *)
Theorem marked_file_survives_seeding cfg st f pre post :
  FS.get (fileService st) f = pre +:+ IGNORE_COMMENT +:+ post →
  FS.find (fileService (seed_state (seed cfg st))) f = FS.find (fileService st) f.
Proof.
  intros Htext. unfold seed. apply seed_fold_marked. simpl.
  rewrite Htext. apply includes_append.
Qed.

Lemma exists_of_name (fs : Store) f :
  f ∈ FS.getFileNames fs → FS.exists_ fs f = true.
Proof.
  unfold FS.getFileNames, FS.exists_.
  induction fs as [|[n g] fs IH]; simpl.
  { intros Hin. by apply elem_of_nil in Hin. }
  intros Hin. destruct (bool_decide (n = f)) eqn:E; [done|].
  apply bool_decide_eq_false_1 in E.
  apply elem_of_cons in Hin as [Hin|Hin]; [done|by apply IH].
Qed.

Lemma exists_delete_eq (fs : Store) f : FS.exists_ (FS.delete fs f) f = false.
Proof. unfold FS.exists_. by rewrite find_delete_eq. Qed.

Lemma seedFile_step cfg acc file :
  file ∉ entrypoints cfg →
  (file ∈ (initialFiles (seedFile cfg acc file)).*1
   ∧ fileService (seed_state (seedFile cfg acc file))
     = fileService (seed_state acc))
  ∨ (initialFiles (seedFile cfg acc file) = initialFiles acc
     ∧ fileService (seed_state (seedFile cfg acc file))
       = FS.delete (fileService (seed_state acc)) file).
Proof.
  intros Hentry. unfold seedFile.
  apply arr_includes_false in Hentry. rewrite Hentry.
  destruct (reachableDepth _); simpl.
  - left. rewrite fmap_app. set_solver.
  - destruct (_ && _); simpl; [by right|].
    left. rewrite fmap_app. set_solver.
Qed.

Lemma seed_fold_initial_from cfg names acc f :
  f ∈ (initialFiles (foldl (seedFile cfg) acc names)).*1 →
  f ∈ (initialFiles acc).*1 ∨ f ∈ names.
Proof.
  revert acc. induction names as [|file names IH]; intros acc; simpl; [auto|].
  intros Hin. apply IH in Hin as [Hin|Hin]; [|set_solver].
  apply seedFile_initial in Hin. set_solver.
Qed.

Lemma seed_fold_initial_names cfg names acc f :
  f ∈ (initialFiles acc).*1 →
  f ∈ (initialFiles (foldl (seedFile cfg) acc names)).*1.
Proof.
  intros Hin. apply list_elem_of_fmap in Hin as ([g d] & -> & Hin).
  apply list_elem_of_fmap. exists (g, d). split; [done|].
  by apply seed_fold_initial_mono.
Qed.

Lemma seed_fold_partition cfg names :
  NoDup names →
  ∀ acc,
    (∀ f, f ∈ names → FS.exists_ (fileService (seed_state acc)) f = true) →
    (∀ f, f ∈ names → f ∉ (initialFiles acc).*1) →
    ∀ f, f ∈ names → f ∉ entrypoints cfg →
         f ∈ (initialFiles (foldl (seedFile cfg) acc names)).*1
         ↔ FS.exists_
             (fileService (seed_state (foldl (seedFile cfg) acc names))) f
           = true.
Proof.
  induction 1 as [|file names Hfresh Hnodup IH]; intros acc Hex Hnew f Hin Hentry.
  { by apply elem_of_nil in Hin. }
  simpl. apply elem_of_cons in Hin as [->|Hin].
  - unfold FS.exists_ at 1. rewrite seed_fold_find by done.
    fold (FS.exists_ (fileService (seed_state (seedFile cfg acc file))) file).
    assert (file ∈ (initialFiles (seedFile cfg acc file)).*1
            ↔ FS.exists_ (fileService (seed_state (seedFile cfg acc file))) file
              = true) as <-.
    { destruct (seedFile_step cfg acc file Hentry) as [[Hin ->]|[-> ->]].
      - split; [|done]. intros _. apply Hex, list_elem_of_here.
      - rewrite exists_delete_eq. split; [|done].
        intros Hin. exfalso. by apply (Hnew file); [apply list_elem_of_here|]. }
    split; [|apply seed_fold_initial_names].
    intros Hseeded. by apply seed_fold_initial_from in Hseeded as [?|?].
  - assert (file ≠ f) as Hne by (intros ->; done).
    apply IH; [| |done..].
    + intros g Hg. assert (file ≠ g) by (intros ->; done).
      unfold FS.exists_. rewrite seedFile_find by done.
      apply Hex. by apply list_elem_of_further.
    + intros g Hg Hseeded. apply seedFile_initial in Hseeded as [Hseeded|[-> _]].
      * by apply (Hnew g); [apply list_elem_of_further|].
      * done.
Qed.

(** X9.  When the names of the store are distinct, seeding handles every
    file that is not an entrypoint: after seeding such a file has a task
    exactly when it is still in the store (it was otherwise deleted). *)
Theorem seeding_seeds_what_it_keeps cfg st f :
  NoDup (FS.getFileNames (fileService st)) →
  f ∈ FS.getFileNames (fileService st) →
  f ∉ entrypoints cfg →
  f ∈ (sortByDepth (initialFiles (seed cfg st))).*1
  ↔ FS.exists_ (fileService (seed_state (seed cfg st))) f = true.
Proof.
  intros Hnodup Hin Hentry.
  assert (f ∈ (sortByDepth (initialFiles (seed cfg st))).*1
          ↔ f ∈ (initialFiles (seed cfg st)).*1) as ->.
  { rewrite !list_elem_of_fmap. split; intros (x & -> & Hx); exists x;
      (split; [done|]); by apply sortByDepth_elem. }
  unfold seed. apply seed_fold_partition; try done.
  - intros g Hg. by apply exists_of_name.
  - intros g _ Hg. simpl in Hg. by apply elem_of_nil in Hg.
Qed.

(** * The order of the tasks *)





(** * Further properties of the tasks and of the run *)

Lemma deleteVertex_lookup file g : deleteVertex file g !! file = None.
Proof. unfold deleteVertex. by rewrite lookup_fmap, lookup_delete_eq. Qed.

(** X12.  Applying a [Delete] result to a file that is not an entrypoint
    removes the file from the store and leaves every other file as it is;
    the [editTracker] receives [start] and [delete] for the file and no
    [end]; when the file had no vertex the graph and the deferred list are
    unchanged and nothing is enqueued, otherwise its vertex is removed. *)
Theorem delete_removes_the_file cfg file vertex st :
  file ∉ entrypoints cfg →
  let st' := (applyResult cfg file vertex OpDelete st).1 in
  FS.exists_ (fileService st') file = false
  ∧ (∀ other, other ≠ file →
              FS.find (fileService st') other = FS.find (fileService st) other)
  ∧ editTracker st'
    = (editTracker st
       ++ [EvStart file (FS.get (fileService st) file); EvDelete file])%list
  ∧ match vertex with
    | Some _ => dependencyGraph st' !! file = None
    | None =>
        dependencyGraph st' = dependencyGraph st
        ∧ wholeReexportsToBeDeleted st' = wholeReexportsToBeDeleted st
        ∧ (applyResult cfg file vertex OpDelete st).2 = []
    end.
Proof.
  intros Hentry. apply arr_includes_false in Hentry. simpl. rewrite Hentry.
  destruct vertex; simpl; rewrite exists_delete_eq, <- app_assoc;
    (split; [done|]); (split; [intros other Hne; by apply find_delete_ne|]);
    (split; [done|]).
  - apply deleteVertex_lookup.
  - done.
Qed.

Lemma applyResult_other cfg file vertex result st other :
  file ≠ other →
  FS.find (fileService (applyResult cfg file vertex result st).1) other
  = FS.find (fileService st) other.
Proof.
  intros Hne. destruct result as [|text removed]; simpl.
  - destruct (arr_includes (entrypoints cfg) file); simpl; [done|].
    destruct vertex; simpl; by apply find_delete_ne.
  - by apply find_set_ne.
Qed.

Lemma callback_other fn cfg file st st' added other :
  callback fn cfg alone file st = inr (st', added) →
  file ≠ other →
  FS.find (fileService st') other = FS.find (fileService st) other.
Proof.
  rewrite callback_alone. unfold ret, bind.
  destruct (negb _); [intros; by simplify_eq|].
  destruct (fn _) as [e|result]; [done|].
  intros Heq Hne. injection Heq as Heq.
  replace st' with (applyResult cfg file (dependencyGraph st !! file) result st).1
    by (by rewrite Heq).
  by apply applyResult_other.
Qed.

Lemma execute_executed_mono fn cfg fuel :
  ∀ queue st done_ x,
    x ∈ done_ → x ∈ executed (execute fn cfg fuel queue st done_).
Proof.
  induction fuel as [|fuel IH]; intros queue st done_ x Hx.
  - by destruct queue.
  - destruct queue as [|file rest]; simpl; [done|].
    destruct (callback fn cfg alone file st) as [e|[st' added]]; simpl.
    + set_solver.
    + apply IH. set_solver.
Qed.

(** X13.  The scheduler changes only the files whose task it executes: a
    file that is not among the executed tasks is in the store after the
    tasks exactly as it was before (same text, same version, or absent). *)
Theorem tasks_touch_only_their_file fn cfg fuel :
  ∀ queue st done_ f,
    f ∉ executed (execute fn cfg fuel queue st done_) →
    FS.find (fileService (run_state (execute fn cfg fuel queue st done_))) f
    = FS.find (fileService st) f.
Proof.
  induction fuel as [|fuel IH]; intros queue st done_ f.
  - by destruct queue.
  - destruct queue as [|file rest]; simpl; [done|].
    destruct (callback fn cfg alone file st) as [e|[st' added]] eqn:Hcb; simpl;
      [done|].
    intros Hf. rewrite IH by done.
    eapply callback_other; [exact Hcb|].
    intros ->. apply Hf, execute_executed_mono. set_solver.
Qed.

Lemma seedFile_no_new_file cfg acc file f :
  FS.exists_ (fileService (seed_state (seedFile cfg acc file))) f = true →
  FS.exists_ (fileService (seed_state acc)) f = true.
Proof.
  unfold seedFile.
  destruct (arr_includes (entrypoints cfg) file); [done|].
  destruct (reachableDepth _); [done|].
  destruct (_ && _); simpl; [|done].
  destruct (decide (file = f)) as [->|Hne].
  - by rewrite exists_delete_eq.
  - by rewrite exists_delete_ne.
Qed.

Lemma seed_fold_no_new_file cfg names acc f :
  FS.exists_ (fileService (seed_state (foldl (seedFile cfg) acc names))) f = true →
  FS.exists_ (fileService (seed_state acc)) f = true.
Proof.
  revert acc. induction names as [|file names IH]; intros acc; simpl; [done|].
  intros Hex. by apply IH, seedFile_no_new_file in Hex.
Qed.

Lemma callback_no_new_file fn cfg file st st' added f :
  callback fn cfg alone file st = inr (st', added) →
  FS.exists_ (fileService st') f = true →
  FS.exists_ (fileService st) f = true.
Proof.
  rewrite callback_alone. unfold ret, bind.
  destruct (FS.exists_ (fileService st) file) eqn:Hfile; simpl.
  2:{ intros; by simplify_eq. }
  destruct (fn _) as [e|result]; [done|].
  intros Heq. injection Heq as Heq.
  replace st' with (applyResult cfg file (dependencyGraph st !! file) result st).1
    by (by rewrite Heq).
  destruct (decide (file = f)) as [->|Hne]; [done|].
  unfold FS.exists_ at 1. by rewrite applyResult_other.
Qed.

Lemma execute_no_new_file fn cfg fuel :
  ∀ queue st done_ f,
    FS.exists_ (fileService (run_state (execute fn cfg fuel queue st done_))) f
    = true →
    FS.exists_ (fileService st) f = true.
Proof.
  induction fuel as [|fuel IH]; intros queue st done_ f.
  - by destruct queue.
  - destruct queue as [|file rest]; simpl; [done|].
    destruct (callback fn cfg alone file st) as [e|[st' added]] eqn:Hcb; simpl;
      [done|].
    intros Hex. apply IH in Hex. by eapply callback_no_new_file.
Qed.

Lemma cleanup_exists csf atc st item f :
  FS.exists_ (fileService (cleanup csf atc st item)) f
  = FS.exists_ (fileService st) f.
Proof.
  destruct item as [file specifier]. simpl.
  destruct (FS.exists_ (fileService st) file) eqn:Hfile; simpl; [|done].
  destruct (removeWholeExportSpecifier _ _ _ _); simpl; [|done].
  by apply exists_set_present.
Qed.

Lemma cleanup_other csf atc st item f :
  item.1 ≠ f →
  FS.find (fileService (cleanup csf atc st item)) f = FS.find (fileService st) f.
Proof.
  destruct item as [file specifier]. simpl. intros Hne.
  destruct (negb _); [done|].
  destruct (removeWholeExportSpecifier _ _ _ _); simpl; [|done].
  by apply find_set_ne.
Qed.

Lemma cleanup_graph csf atc st item :
  dependencyGraph (cleanup csf atc st item) = dependencyGraph st.
Proof.
  destruct item as [file specifier]. simpl.
  destruct (negb _); [done|].
  by destruct (removeWholeExportSpecifier _ _ _ _).
Qed.

Lemma cleanup_fold csf atc items :
  ∀ st,
    (∀ f, FS.exists_ (fileService (foldl (cleanup csf atc) st items)) f
          = FS.exists_ (fileService st) f)
    ∧ (∀ f, f ∉ items.*1 →
            FS.find (fileService (foldl (cleanup csf atc) st items)) f
            = FS.find (fileService st) f)
    ∧ dependencyGraph (foldl (cleanup csf atc) st items) = dependencyGraph st.
Proof.
  induction items as [|item items IH]; intros st; simpl; [done|].
  destruct (IH (cleanup csf atc st item)) as (Hex & Hfind & Hg).
  split; [|split].
  - intros f. by rewrite Hex, cleanup_exists.
  - intros f Hf. apply not_elem_of_cons in Hf as [Hne Hf].
    rewrite Hfind by done. apply cleanup_other. congruence.
  - by rewrite Hg, cleanup_graph.
Qed.

(** X18.  The deferred clean-up neither deletes nor creates a file,
    leaves the graph as it is, and leaves every file that is not named by
    an entry of the deferred list exactly as it was. *)
Theorem cleanup_touches_only_listed_files csf atc items :
  ∀ st,
    (∀ f, FS.exists_ (fileService (foldl (cleanup csf atc) st items)) f
          = FS.exists_ (fileService st) f)
    ∧ (∀ f, f ∉ items.*1 →
            FS.find (fileService (foldl (cleanup csf atc) st items)) f
            = FS.find (fileService st) f)
    ∧ dependencyGraph (foldl (cleanup csf atc) st items) = dependencyGraph st.
Proof.
  induction items as [|item items IH]; intros st; simpl; [done|].
  destruct (IH (cleanup csf atc st item)) as (Hex & Hfind & Hg).
  split; [|split].
  - intros f. by rewrite Hex, cleanup_exists.
  - intros f Hf. apply not_elem_of_cons in Hf as [Hne Hf].
    rewrite Hfind by done. apply cleanup_other. congruence.
  - by rewrite Hg, cleanup_graph.
Qed.

(** X14.  A run never creates a file: every file of the store after a
    run, however far the run got, was in the store before it. *)
Theorem run_creates_no_file fn csf atc cfg fuel graph (fs : Store) f :
  FS.exists_
    (fileService (run_state (removeUnusedExport fn csf atc cfg fuel graph fs))) f
  = true →
  FS.exists_ fs f = true.
Proof.
  unfold removeUnusedExport.
  set (seeding := seed cfg _).
  set (run := execute fn cfg fuel _ _ []).
  intros Hex.
  assert (FS.exists_ (fileService (run_state run)) f = true) as Hrun.
  { destruct (status run); simpl in Hex; [|done..].
    destruct (cleanup_fold csf atc
                (wholeReexportsToBeDeleted (run_state run)) (run_state run))
      as (Hsame & _). by rewrite <- Hsame. }
  apply execute_no_new_file in Hrun.
  unfold seeding, seed in Hrun. by apply seed_fold_no_new_file in Hrun.
Qed.

Lemma applyResult_added_not_entrypoints cfg file vertex result st f :
  f ∈ (applyResult cfg file vertex result st).2 → f ∉ entrypoints cfg.
Proof.
  destruct result as [|text removed]; simpl.
  - destruct (arr_includes (entrypoints cfg) file); simpl.
    { intros Hin. by apply elem_of_nil in Hin. }
    destruct vertex; simpl; [|intros Hin; by apply elem_of_nil in Hin].
    destruct (recursive cfg); [|intros Hin; by apply elem_of_nil in Hin].
    intros Hin. by apply dependents_elem in Hin as [_ ?].
  - destruct vertex; [|intros Hin; by apply elem_of_nil in Hin].
    destruct (_ && _); [|intros Hin; by apply elem_of_nil in Hin].
    intros Hin. by apply dependents_elem in Hin as [_ ?].
Qed.

Lemma callback_added_not_entrypoints fn cfg file st st' added f :
  callback fn cfg alone file st = inr (st', added) →
  f ∈ added → f ∉ entrypoints cfg.
Proof.
  rewrite callback_alone. unfold ret, bind.
  destruct (negb _).
  { intros ? Hin; simplify_eq. by apply elem_of_nil in Hin. }
  destruct (fn _) as [e|result]; [done|].
  intros Heq. injection Heq as Heq.
  replace added with (applyResult cfg file (dependencyGraph st !! file) result st).2
    by (by rewrite Heq).
  apply applyResult_added_not_entrypoints.
Qed.

Lemma execute_no_entrypoint fn cfg fuel :
  ∀ tasks st done_,
    (∀ f, f ∈ tasks → f ∉ entrypoints cfg) →
    (∀ f, f ∈ done_ → f ∉ entrypoints cfg) →
    ∀ f, f ∈ executed (execute fn cfg fuel tasks st done_)
         ∨ f ∈ queue (execute fn cfg fuel tasks st done_) →
         f ∉ entrypoints cfg.
Proof.
  induction fuel as [|fuel IH]; intros tasks st done_ Hq Hd f.
  - destruct tasks; simpl; set_solver.
  - destruct tasks as [|file rest]; simpl; [set_solver|].
    destruct (callback fn cfg alone file st) as [e|[st' added]] eqn:Hcb; simpl.
    + set_solver.
    + apply IH.
      * intros g Hg. apply elem_of_app in Hg as [Hg|Hg]; [set_solver|].
        by eapply callback_added_not_entrypoints.
      * set_solver.
Qed.

(** X15.  No task is ever executed, or left queued, for an entrypoint:
    the seeded tasks exclude the entrypoints and so does everything a task
    enqueues. *)
Theorem entrypoints_are_never_analyzed fn csf atc cfg fuel graph (fs : Store) f :
  f ∈ executed (removeUnusedExport fn csf atc cfg fuel graph fs)
  ∨ f ∈ queue (removeUnusedExport fn csf atc cfg fuel graph fs) →
  f ∉ entrypoints cfg.
Proof.
  unfold removeUnusedExport.
  set (seeding := seed cfg _).
  set (run := execute fn cfg fuel _ _ []).
  intros Hin.
  assert (f ∈ executed run ∨ f ∈ queue run) as Hrun
    by (by destruct (status run)).
  revert Hrun. apply execute_no_entrypoint.
  - intros g Hg. apply list_elem_of_fmap in Hg as ([g' d] & -> & Hg).
    rewrite sortByDepth_elem in Hg.
    assert (g' ∈ (initialFiles seeding).*1) as Hseeded.
    { apply list_elem_of_fmap. by exists (g', d). }
    unfold seeding, seed in Hseeded.
    apply seed_fold_initial in Hseeded as [Hnil|?]; [|done].
    simpl in Hnil. by apply elem_of_nil in Hnil.
  - intros g Hg. by apply elem_of_nil in Hg.
Qed.

Lemma callback_without_cascade fn cfg file st st' added :
  recursive cfg = false →
  callback fn cfg alone file st = inr (st', added) →
  added = [].
Proof.
  intros Hoff Hcb.
  destruct added as [|x added]; [done|]. exfalso.
  rewrite callback_alone in Hcb. unfold ret, bind in Hcb.
  destruct (negb _); [by simplify_eq|].
  destruct (fn _) as [e|result]; [done|]. injection Hcb as Hcb.
  destruct (applyResult_enqueues cfg file (dependencyGraph st !! file) result st)
    as [Hrec _]; [by rewrite Hcb|].
  congruence.
Qed.

Lemma execute_without_cascade fn cfg fuel :
  recursive cfg = false →
  ∀ tasks st done_,
    (length tasks ≤ fuel)%nat →
    status (execute fn cfg fuel tasks st done_) ≠ Unfinished
    ∧ (executed (execute fn cfg fuel tasks st done_)
       ++ queue (execute fn cfg fuel tasks st done_))%list
      = (done_ ++ tasks)%list.
Proof.
  intros Hoff. induction fuel as [|fuel IH]; intros tasks st done_ Hfuel.
  - destruct tasks; simpl in *; [by rewrite app_nil_r|lia].
  - destruct tasks as [|file rest]; simpl; [by rewrite app_nil_r|].
    destruct (callback fn cfg alone file st) as [e|[st' added]] eqn:Hcb; simpl.
    + split; [done|]. by rewrite <- app_assoc.
    + apply callback_without_cascade in Hcb as ->; [|done].
      rewrite app_nil_r.
      destruct (IH rest st' (done_ ++ [file])%list) as [Hst Heq];
        [simpl in Hfuel; lia|].
      split; [done|]. by rewrite Heq, <- app_assoc.
Qed.

Lemma execute_fixpoint_queue fn cfg fuel :
  ∀ tasks st done_,
    status (execute fn cfg fuel tasks st done_) = AtFixpoint →
    queue (execute fn cfg fuel tasks st done_) = [].
Proof.
  induction fuel as [|fuel IH]; intros tasks st done_.
  - by destruct tasks.
  - destruct tasks as [|file rest]; simpl; [done|].
    destruct (callback fn cfg alone file st) as [e|[st' added]]; simpl;
      [done|apply IH].
Qed.

(** The clean-up changes neither the status nor the record of the tasks. *)
Lemma removeUnusedExport_tasks fn csf atc cfg fuel graph (fs : Store) :
  let seeding :=
    seed cfg {| fileService := fs; dependencyGraph := graph;
                wholeReexportsToBeDeleted := []; editTracker := [] |} in
  let tasks :=
    execute fn cfg fuel (sortByDepth (initialFiles seeding)).*1
      (seed_state seeding) [] in
  status (removeUnusedExport fn csf atc cfg fuel graph fs) = status tasks
  ∧ executed (removeUnusedExport fn csf atc cfg fuel graph fs) = executed tasks
  ∧ queue (removeUnusedExport fn csf atc cfg fuel graph fs) = queue tasks.
Proof.
  intros seeding tasks. unfold removeUnusedExport.
  fold seeding. fold tasks. by destruct (status tasks) eqn:Est.
Qed.

(** X16.  With cascading propagation disabled a run executes the seeded
    tasks and nothing else: given one unit of fuel per file of the store
    the run stops, and the tasks executed followed by those left in the
    queue (none when the fixpoint is reached) are the seeded tasks in
    depth order. *)
Theorem without_cascade_only_seeds_run fn csf atc cfg fuel graph (fs : Store) :
  recursive cfg = false →
  (length fs ≤ fuel)%nat →
  let run := removeUnusedExport fn csf atc cfg fuel graph fs in
  let seeded :=
    (sortByDepth
       (initialFiles
          (seed cfg {| fileService := fs; dependencyGraph := graph;
                       wholeReexportsToBeDeleted := []; editTracker := [] |}))).*1 in
  status run ≠ Unfinished
  ∧ (executed run ++ queue run)%list = seeded
  ∧ (status run = AtFixpoint → executed run = seeded).
Proof.
  intros Hoff Hfuel run seeded.
  destruct (removeUnusedExport_tasks fn csf atc cfg fuel graph fs)
    as (Hst & Hex & Hq).
  fold run in Hst, Hex, Hq. fold seeded in Hst, Hex, Hq.
  set (st0 := {| fileService := fs; dependencyGraph := graph;
                 wholeReexportsToBeDeleted := []; editTracker := [] |}) in *.
  destruct (seed_fold_bounds (λ _, 0%nat) cfg (FS.getFileNames fs)
              {| filesOutsideOfGraphHasSkipComment := false;
                 initialFiles := []; seed_state := st0 |}) as [_ Hlen].
  change (foldl (seedFile cfg) _ (FS.getFileNames fs)) with (seed cfg st0) in Hlen.
  simpl in Hlen. unfold FS.getFileNames in Hlen. rewrite length_fmap in Hlen.
  destruct (execute_without_cascade fn cfg fuel Hoff seeded
              (seed_state (seed cfg st0)) []) as [Hstatus Heq].
  { unfold seeded. rewrite length_fmap, sortByDepth_length. lia. }
  simpl in Heq. rewrite Hst, Hex, Hq.
  split; [done|]. split; [done|].
  intros Hfix. apply execute_fixpoint_queue in Hfix.
  rewrite Hfix, app_nil_r in Heq. done.
Qed.

Lemma reexportsOf_elem g file vertex v s :
  (v, s) ∈ reexportsOf g file vertex ↔
  v ∈ from vertex
  ∧ ∃ target, g !! v = Some target
              ∧ wholeReexportSpecifier (data target) !! file = Some s
              ∧ s ≠ EmptyString.
Proof.
  unfold reexportsOf. rewrite list_elem_of_omap. split.
  - intros (x & Hx & Hsome).
    destruct (g !! x) as [target|] eqn:Hg; [|done].
    destruct (wholeReexportSpecifier (data target) !! file) as [s'|] eqn:Hs;
      [|done].
    case_bool_decide; [done|]. simplify_eq. eauto.
  - intros (Hv & target & Hg & Hs & Hne). exists v. split; [done|].
    rewrite Hg, Hs. by rewrite bool_decide_eq_false_2.
Qed.

(** X17.  Applying a result adds entries to the deferred list only when
    it deletes a file that is not an entrypoint and has a vertex: the
    entries added are then the pairs of an importer of the file whose
    vertex is in the graph and of the non-empty specifier that importer
    recorded for a whole re-export of the file. *)
Theorem deferred_entries_come_from_importers cfg file vertex result st :
  ∃ new,
    wholeReexportsToBeDeleted (applyResult cfg file vertex result st).1
    = (wholeReexportsToBeDeleted st ++ new)%list
    ∧ ∀ v s,
        (v, s) ∈ new ↔
        result = OpDelete ∧ (file ∉ entrypoints cfg)
        ∧ ∃ vertex', vertex = Some vertex' ∧ v ∈ from vertex'
            ∧ ∃ target, dependencyGraph st !! v = Some target
                ∧ wholeReexportSpecifier (data target) !! file = Some s
                ∧ s ≠ EmptyString.
Proof.
  destruct result as [|text removed]; simpl.
  - destruct (arr_includes (entrypoints cfg) file) eqn:E; simpl.
    + apply arr_includes_true in E. exists []. rewrite app_nil_r.
      split; [done|]. intros v s. split; [by intros ?%elem_of_nil|naive_solver].
    + apply arr_includes_false in E. destruct vertex as [vertex'|]; simpl.
      * eexists. split; [reflexivity|]. intros v s.
        rewrite reexportsOf_elem. naive_solver.
      * exists []. rewrite app_nil_r. split; [done|].
        intros v s. split; [by intros ?%elem_of_nil|naive_solver].
  - exists []. rewrite app_nil_r. split; [done|].
    intros v s. split; [by intros ?%elem_of_nil|naive_solver].
Qed.

Lemma visit_fold_empty specifier nodes :
  foldl (visit specifier) [] nodes = [] →
  ∀ n, n ∈ nodes → isWholeReexportOf specifier n = false.
Proof.
  induction nodes as [|node nodes IH]; simpl.
  { intros _ n Hn. by apply elem_of_nil in Hn. }
  unfold visit at 2. simpl.
  destruct (isWholeReexportOf specifier node) eqn:Hnode.
  - rewrite visit_fold_found by done. done.
  - intros Hrest n Hn. apply elem_of_cons in Hn as [->|Hn]; [done|by apply IH].
Qed.

(** X19.  [removeWholeExportSpecifier] returns [null] exactly when no
    child of the source file is a bare whole re-export of the specifier;
    the parser and [applyTextChanges] cannot make it fail otherwise. *)
Theorem null_exactly_without_match
    (createSourceFile : string → list Node)
    (applyTextChanges : string → list TextChange → string)
    (text specifier : string) :
  removeWholeExportSpecifier createSourceFile applyTextChanges text specifier = None
  ↔ ∀ n, n ∈ createSourceFile text → isWholeReexportOf specifier n = false.
Proof.
  split; [|apply removeWholeExportSpecifier_none].
  unfold removeWholeExportSpecifier.
  destruct (foldl (visit specifier) [] (createSourceFile text)) as [|r rs] eqn:Hfold;
    [|done].
  intros _. by apply visit_fold_empty.
Qed.

Section NoDeletion.

Variable findFileUsage : string → Vertexes → gmap string string → gset string.
Variable parseFile : string → string → list string → list ExportItem.
Variable applyTextChanges : string → list TextChange → string.
Variable stripExportKeyword : string → string.
Variable updateExportDeclaration : string → list string → string.
Variable applyCodeFix : FixId → string → string → string.
Variable fuel : nat.
Variable cfg : Config.
Hypothesis deletion_disabled : cfg_deleteUnusedFile cfg = false.

Local Abbreviation analyze :=
  (processFile findFileUsage parseFile applyTextChanges stripExportKeyword
     updateExportDeclaration applyCodeFix fuel).

Lemma callback_keeps_files file st st' added f :
  callback analyze cfg alone file st = inr (st', added) →
  FS.exists_ (fileService st') f = FS.exists_ (fileService st) f.
Proof.
  rewrite callback_alone. unfold ret, bind.
  destruct (FS.exists_ (fileService st) file) eqn:Hfile; simpl.
  2:{ intros; by simplify_eq. }
  destruct (analyze (argsFor cfg file st)) as [e|result] eqn:Hres; [done|].
  intros Heq. injection Heq as Heq.
  replace st' with (applyResult cfg file (dependencyGraph st !! file) result st).1
    by (by rewrite Heq).
  destruct result as [|text removed].
  - exfalso. revert Hres. apply processFile_not_deleting.
    unfold deletesModule. simpl. rewrite deletion_disabled.
    by rewrite andb_false_r.
  - simpl. by apply exists_set_present.
Qed.

Lemma execute_keeps_files tasks_fuel :
  ∀ tasks st done_ f,
    FS.exists_
      (fileService (run_state (execute analyze cfg tasks_fuel tasks st done_))) f
    = FS.exists_ (fileService st) f.
Proof.
  induction tasks_fuel as [|n IH]; intros tasks st done_ f.
  - by destruct tasks.
  - destruct tasks as [|file rest]; simpl; [done|].
    destruct (callback analyze cfg alone file st) as [e|[st' added]] eqn:Hcb;
      simpl; [done|].
    rewrite IH. by eapply callback_keeps_files.
Qed.

(** X20.  With deletion of unused files disabled, a run whose analyzer is
    [processFile] deletes no file: after the run, however far it got, the
    store holds exactly the files it held before. *)
Theorem run_without_deletion_keeps_every_file csf tasks_fuel graph (fs : Store) f :
  FS.exists_
    (fileService
       (run_state (removeUnusedExport analyze csf applyTextChanges cfg tasks_fuel
                     graph fs))) f
  = FS.exists_ fs f.
Proof.
  unfold removeUnusedExport.
  set (st0 := {| fileService := fs; dependencyGraph := graph;
                 wholeReexportsToBeDeleted := []; editTracker := [] |}).
  rewrite (seed_plain_state cfg st0 deletion_disabled).
  set (run := execute analyze cfg tasks_fuel _ st0 []).
  assert (FS.exists_ (fileService (run_state run)) f = FS.exists_ fs f) as Hrun
    by apply execute_keeps_files.
  destruct (status run); simpl; [|done..].
  destruct (cleanup_fold csf applyTextChanges
              (wholeReexportsToBeDeleted (run_state run)) (run_state run))
    as (Hsame & _).
  by rewrite Hsame.
Qed.

End NoDeletion.

Lemma run_without_deletion_keeps_every_file_witness :
  FS.exists_
    (fileService
       (run_state
          (removeUnusedExport Demo.analyze Demo.createSourceFile spliceTextChanges
             Demo.config 10 Demo.graph Demo.store))) "d.ts"
  = true.
Proof.
  rewrite (run_without_deletion_keeps_every_file Demo.findFileUsage Demo.parseFile
             spliceTextChanges Demo.stripExportKeyword
             Demo.updateExportDeclaration Demo.applyCodeFix 1 Demo.config).
  - reflexivity.
  - reflexivity.
Defined.

(** * A module whose usage is the wildcard *)



Section WildcardModule.

Variable findFileUsage : string → Vertexes → gmap string string → gset string.
Variable parseFile : string → string → list string → list ExportItem.
Variable applyTextChanges : string → list TextChange → string.
Variable stripExportKeyword : string → string.
Variable updateExportDeclaration : string → list string → string.
Variable applyCodeFix : FixId → string → string → string.
Variable fuel : nat.
Variable cfg : Config.
Variable f : string.

Local Abbreviation analyze :=
  (processFile findFileUsage parseFile applyTextChanges stripExportKeyword
     updateExportDeclaration applyCodeFix fuel).

Hypothesis always_wildcard : ∀ vs fl, "*" ∈ findFileUsage f vs fl.





End WildcardModule.




(** * Instances of the further properties *)

Lemma edit_without_removal_keeps_text_witness :
  "import './b'; import './c';" = currentText (argsFor Demo.config "a.ts" Demo.state).
Proof.
  apply (edit_without_removal_keeps_text Demo.findFileUsage Demo.parseFile
           spliceTextChanges Demo.stripExportKeyword Demo.updateExportDeclaration
           Demo.applyCodeFix 1 (argsFor Demo.config "a.ts" Demo.state)).
  vm_compute. reflexivity.
Defined.

Lemma used_exports_are_kept_witness :
  processFile Demo.usesX Demo.parseFile spliceTextChanges Demo.stripExportKeyword
    Demo.updateExportDeclaration Demo.applyCodeFix 1
    (Demo.args "b.ts" Demo.exportX true) = ret OpDelete
  ∨ processFile Demo.usesX Demo.parseFile spliceTextChanges Demo.stripExportKeyword
      Demo.updateExportDeclaration Demo.applyCodeFix 1
      (Demo.args "b.ts" Demo.exportX true) = ret (OpEdit Demo.exportX []).
Proof.
  apply (used_exports_are_kept Demo.usesX Demo.parseFile spliceTextChanges
           Demo.stripExportKeyword Demo.updateExportDeclaration
           Demo.applyCodeFix 1 (Demo.args "b.ts" Demo.exportX true)).
  intros item Hin.
  assert (exportsOf Demo.parseFile (Demo.args "b.ts" Demo.exportX true)
          = Demo.parseFile "b.ts" Demo.exportX []) as Heq
    by (vm_compute; reflexivity).
  rewrite Heq in Hin. apply list_elem_of_singleton in Hin. rewrite Hin.
  split; [reflexivity|]. right. intros n Hn.
  apply list_elem_of_singleton in Hn. rewrite Hn.
  apply elem_of_singleton. reflexivity.
Defined.

Lemma code_fix_disabled_witness :
  processFile Demo.findFileUsage Demo.parseMerged spliceTextChanges
    Demo.stripExportKeyword Demo.updateExportDeclaration Demo.applyCodeFix 1
    (Demo.args "m.ts" Demo.merged false)
  = processFile Demo.findFileUsage Demo.parseMerged spliceTextChanges
      Demo.stripExportKeyword Demo.updateExportDeclaration Demo.growFix 0
      (Demo.args "m.ts" Demo.merged false).
Proof.
  apply (code_fix_disabled Demo.findFileUsage Demo.parseMerged spliceTextChanges
           Demo.stripExportKeyword Demo.updateExportDeclaration
           Demo.applyCodeFix 1 (Demo.args "m.ts" Demo.merged false)).
  reflexivity.
Defined.

Lemma fix_loop_returns_fixpoint_witness :
  fixLoop Demo.trimFix (4 + 10) "m.ts" "abc" = ret EmptyString.
Proof.
  destruct (fix_loop_returns_fixpoint Demo.trimFix "m.ts") as [H _].
  destruct (H 4%nat "abc" EmptyString) as (_ & _ & Hmore).
  - reflexivity.
  - exact (Hmore 10%nat).
Defined.

Lemma tracker_calls_name_the_task_file_witness :
  ∃ evs,
    editTracker
      (default Demo.state
         (stateAfter (callback Demo.analyze Demo.config alone "b.ts" Demo.state)))
    = (editTracker Demo.state ++ evs)%list
    ∧ ∀ ev, ev ∈ evs → event_file ev = "b.ts".
Proof.
  apply (tracker_calls_name_the_task_file Demo.findFileUsage Demo.parseFile
           spliceTextChanges Demo.stripExportKeyword Demo.updateExportDeclaration
           Demo.applyCodeFix 1 Demo.config "b.ts" Demo.state
           (default Demo.state
              (stateAfter
                 (callback Demo.analyze Demo.config alone "b.ts" Demo.state)))
           (enqueued (callback Demo.analyze Demo.config alone "b.ts" Demo.state))).
  vm_compute. reflexivity.
Defined.

Lemma seeding_without_deletion_witness :
  seed_state (seed Demo.config Demo.state) = Demo.state
  ∧ (initialFiles (seed Demo.config Demo.state)).*1 = ["b.ts"; "c.ts"; "d.ts"].
Proof.
  destruct (seeding_without_deletion Demo.config Demo.state) as [Hstate Hseeds].
  - reflexivity.
  - split; [exact Hstate|]. rewrite Hseeds. vm_compute. reflexivity.
Defined.

Lemma seeding_keeps_reachable_witness :
  FS.find (fileService (seed_state (seed Demo.deleting Demo.state))) "b.ts"
  = Some (Demo.file Demo.exportX).
Proof.
  destruct (seeding_keeps_reachable Demo.deleting Demo.state "b.ts" 1%Z)
    as [Hfind _].
  - reflexivity.
  - rewrite Hfind. reflexivity.
Defined.

Lemma seeding_seeds_what_it_keeps_witness :
  "c.ts"
  ∈ (sortByDepth
       (initialFiles
          (seed Demo.deleting (Demo.initially Demo.orphans Demo.onlyEntrypoint)))).*1.
Proof.
  apply (seeding_seeds_what_it_keeps Demo.deleting
           (Demo.initially Demo.orphans Demo.onlyEntrypoint) "c.ts").
  - apply (bool_decide_unpack _). vm_compute. exact I.
  - apply list_elem_of_further, list_elem_of_further, list_elem_of_here.
  - apply not_elem_of_cons; split; [discriminate | apply not_elem_of_nil].
  - reflexivity.
Defined.

Lemma marked_file_survives_seeding_witness :
  FS.find
    (fileService
       (seed_state
          (seed Demo.deleting (Demo.initially Demo.orphans Demo.onlyEntrypoint))))
    "c.ts"
  = Some (Demo.file "/* ts-remove-unused-skip */ export const z = 3;").
Proof.
  rewrite (marked_file_survives_seeding Demo.deleting
             (Demo.initially Demo.orphans Demo.onlyEntrypoint) "c.ts"
             "/* " " */ export const z = 3;").
  - reflexivity.
  - reflexivity.
Defined.

Lemma delete_removes_the_file_witness :
  FS.exists_
    (fileService
       (applyResult Demo.deleting "b.ts" (Demo.graph !! "b.ts") OpDelete Demo.state).1)
    "b.ts"
  = false.
Proof.
  apply (delete_removes_the_file Demo.deleting "b.ts" (Demo.graph !! "b.ts")
           Demo.state).
  apply not_elem_of_cons; split; [discriminate | apply not_elem_of_nil].
Defined.

Lemma tasks_touch_only_their_file_witness :
  FS.find
    (fileService
       (run_state
          (execute Demo.analyze Demo.config 10 ["b.ts"; "c.ts"] Demo.state [])))
    "a.ts"
  = Some (Demo.file "import './b'; import './c';").
Proof.
  rewrite (tasks_touch_only_their_file Demo.analyze Demo.config 10
             ["b.ts"; "c.ts"] Demo.state [] "a.ts").
  - reflexivity.
  - assert (executed
              (execute Demo.analyze Demo.config 10 ["b.ts"; "c.ts"] Demo.state [])
            = ["b.ts"; "c.ts"; "d.ts"; "d.ts"]) as Heq
      by (vm_compute; reflexivity).
    rewrite Heq.
    repeat (apply not_elem_of_cons; split; [discriminate|]).
    apply not_elem_of_nil.
Defined.

Lemma cleanup_touches_only_listed_files_witness :
  FS.find
    (fileService
       (foldl (cleanup Demo.parseReexports spliceTextChanges)
          (Demo.initially Demo.store Demo.graph) [("d.ts", "./c")]))
    "b.ts"
  = Some (Demo.file Demo.exportX).
Proof.
  destruct (cleanup_touches_only_listed_files Demo.parseReexports
              spliceTextChanges [("d.ts", "./c")]
              (Demo.initially Demo.store Demo.graph)) as (_ & Hfind & _).
  rewrite Hfind.
  - reflexivity.
  - apply not_elem_of_cons; split; [discriminate | apply not_elem_of_nil].
Defined.

Lemma run_creates_no_file_witness : FS.exists_ Demo.store "a.ts" = true.
Proof.
  apply (run_creates_no_file Demo.analyze Demo.createSourceFile spliceTextChanges
           Demo.deleting 10 Demo.graph Demo.store "a.ts").
  vm_compute. reflexivity.
Defined.

Lemma entrypoints_are_never_analyzed_witness : "b.ts" ∉ entrypoints Demo.config.
Proof.
  apply (entrypoints_are_never_analyzed Demo.analyze Demo.createSourceFile
           spliceTextChanges Demo.config 10 Demo.graph Demo.store "b.ts").
  left.
  assert (executed
            (removeUnusedExport Demo.analyze Demo.createSourceFile
               spliceTextChanges Demo.config 10 Demo.graph Demo.store)
          = ["b.ts"; "c.ts"; "d.ts"; "d.ts"; "d.ts"]) as Heq
    by (vm_compute; reflexivity).
  rewrite Heq. apply list_elem_of_here.
Defined.

Lemma without_cascade_only_seeds_run_witness :
  executed
    (removeUnusedExport Demo.analyze Demo.createSourceFile spliceTextChanges
       Demo.flat 4 Demo.graph Demo.store)
  = ["b.ts"; "c.ts"; "d.ts"].
Proof.
  destruct (without_cascade_only_seeds_run Demo.analyze Demo.createSourceFile
              spliceTextChanges Demo.flat 4 Demo.graph Demo.store)
    as (_ & _ & Hfix).
  - reflexivity.
  - simpl. lia.
  - rewrite Hfix; [|vm_compute; reflexivity]. vm_compute. reflexivity.
Defined.
